(** * Infographic editor: the selection-driven edit bar and the public event bridge

    A shallow embedding of
    - [EditBar] (plugin [edit-bar]: selection classification, merged
      attributes, item resolution, show/hide state machine, placement),
    - the React adapter ([createReactEditBar], [cleanupReactEditBar]),
    - [Infographic] ([setOptions], [render], [update], [performRender],
      [setupEditorEventBridge]).

    JavaScript numbers.  [PlacementIEEE] embeds [placeEditBar] on IEEE 754
    binary64 numbers, operation by operation in the order of the source,
    with [NaN], signed zeros and rounding as JavaScript has them; the
    placement rule, whose above/below decision turns on the last bit near
    a tie, is stated on it.  [Placement] is the same code read over exact
    rationals ([Q]): NaN and rounding are outside that model.  It carries
    the plugin's state machine, whose transitions never inspect a
    coordinate, and the facts about the clamp that do not involve the
    above/below decision. *)

From Stdlib Require Import QArith Qminmax Lqa Floats.
From stdpp Require Import base option list gmap strings.

Set Default Proof Using "Type".

(** ** Toolbar placement ([placeEditBar]) over exact rationals *)

Module Placement.
Local Open Scope Q_scope.

(** [DOMRect], as returned by [getBoundingClientRect]. Element boxes have
    a non-negative size, so [left] is [x] and [top] is [y]. *)
Record DOMRect := mkRect {
  rect_x : Q;
  rect_y : Q;
  rect_width : Q;
  rect_height : Q
}.

Definition rect_left (r : DOMRect) : Q := rect_x r.
Definition rect_top (r : DOMRect) : Q := rect_y r.

(** What [container.offsetParent] can be: [null], [document.body],
    [document.documentElement], or another positioned ancestor, of which
    only the bounding box is read. *)
Inductive OffsetParent :=
| opNull
| opBody
| opDocumentElement
| opAncestor (parentRect : DOMRect).

(** The part of [document] / [window] that [placeEditBar] reads. *)
Record Document := mkDocument {
  clientWidth : Q;
  clientHeight : Q;
  scrollLeft : Q;
  scrollTop : Q;
  window_scrollX : Q;
  window_scrollY : Q
}.

(** The part of the toolbar container that [placeEditBar] reads. *)
Record Measured := mkMeasured {
  offsetParent : OffsetParent;
  containerRect : DOMRect
}.

(** [container.style.left] / [container.style.top], in pixels. *)
Record Position := mkPosition {
  style_left : Q;
  style_top : Q
}.

(** [a || b] on numbers: [0] is falsy. *)
Definition jsOr (a b : Q) : Q := if Qeq_bool a 0 then b else a.

(** [a >= b] *)
Definition geq (a b : Q) : bool := Qle_bool b a.

(** [Math.min(Math.max(value, min), max)] *)
Definition clamp (value min max : Q) : Q := Qmin (Qmax value min) max.

Definition offset : Q := 8.

Section WithBounds.

(** [getCombinedBounds] is imported from [jsx] and is not part of the
    sources at hand: it is a parameter of the placement. *)
Variable getCombinedBounds : list DOMRect -> DOMRect.

(** The above/below decision, over exact rationals.  Near a tie of the
    two spaces the doubles of the source can decide the other way; the
    decision rule is stated on [PlacementIEEE.shouldPlaceAbove], and what
    is stated over this module holds whichever branch is taken. *)
Definition shouldPlaceAbove (doc : Document) (m : Measured)
    (combinedBounds : DOMRect) : bool :=
  let viewportHeight := clientHeight doc in
  let anchorTop_y := rect_y combinedBounds in
  let anchorBottom_y := rect_y combinedBounds + rect_height combinedBounds in
  let spaceAbove := anchorTop_y - offset in
  let spaceBelow := viewportHeight - anchorBottom_y - offset in
  geq spaceAbove (rect_height (containerRect m)) || geq spaceAbove spaceBelow.

(** [placeEditBar(container, selection)], on the bounding boxes of the
    selected elements. [None]: the early return, nothing is written. *)
Definition placeEditBar (doc : Document) (m : Measured)
    (rects : list DOMRect) : option Position :=
  match rects with
  | [] => None
  | _ :: _ =>
    let combinedBounds := getCombinedBounds rects in
    let offsetParent :=
      match offsetParent m with
      | opNull => opDocumentElement
      | p => p
      end in
    let viewportHeight := clientHeight doc in
    let viewportWidth := clientWidth doc in
    let containerRect := containerRect m in
    let anchorTop_x := rect_x combinedBounds + rect_width combinedBounds / 2 in
    let anchorTop_y := rect_y combinedBounds in
    let anchorBottom_y := rect_y combinedBounds + rect_height combinedBounds in
    let above := shouldPlaceAbove doc m combinedBounds in
    match offsetParent with
    | opAncestor parentRect =>
      let left := anchorTop_x - rect_left parentRect - rect_width containerRect / 2 in
      let left :=
        clamp left 0 (Qmax (rect_width parentRect - rect_width containerRect) 0) in
      let top :=
        if above
        then anchorTop_y - rect_top parentRect - rect_height containerRect - offset
        else anchorBottom_y - rect_top parentRect + offset in
      let top :=
        clamp top 0 (Qmax (rect_height parentRect - rect_height containerRect) 0) in
      Some (mkPosition left top)
    | _ =>
      let scrollX := jsOr (window_scrollX doc) (scrollLeft doc) in
      let scrollY := jsOr (window_scrollY doc) (scrollTop doc) in
      let left := scrollX + anchorTop_x - rect_width containerRect / 2 in
      let left :=
        clamp left scrollX
          (scrollX + Qmax (viewportWidth - rect_width containerRect) 0) in
      let top :=
        if above
        then scrollY + anchorTop_y - rect_height containerRect - offset
        else scrollY + anchorBottom_y + offset in
      let top :=
        clamp top scrollY
          (scrollY + Qmax (viewportHeight - rect_height containerRect) 0) in
      Some (mkPosition left top)
    end
  end.

End WithBounds.

(** *** The placement rule in the specification's words

    The positioning coordinate space that hosts the toolbar is either the
    global viewport, accounting for the scroll offset, or the box of a
    positioned ancestor.  [host_dx], [host_dy] translate viewport
    coordinates into that space; the other fields are the extent over
    which the toolbar's corner may range. *)
Record HostSpace := mkHost {
  host_dx : Q;
  host_dy : Q;
  host_xmin : Q;
  host_xmax : Q;
  host_ymin : Q;
  host_ymax : Q
}.

Definition spec_hostSpace (doc : Document) (m : Measured) : HostSpace :=
  let T := containerRect m in
  match offsetParent m with
  | opAncestor P =>
    mkHost (- rect_left P) (- rect_top P)
           0 (Qmax (rect_width P - rect_width T) 0)
           0 (Qmax (rect_height P - rect_height T) 0)
  | _ =>
    let sx := jsOr (window_scrollX doc) (scrollLeft doc) in
    let sy := jsOr (window_scrollY doc) (scrollTop doc) in
    mkHost sx sy
           sx (sx + Qmax (clientWidth doc - rect_width T) 0)
           sy (sy + Qmax (clientHeight doc - rect_height T) 0)
  end.

Definition spec_anchorTop (B : DOMRect) : Q * Q :=
  (rect_x B + rect_width B / 2, rect_y B).

Definition spec_anchorBottom (B : DOMRect) : Q * Q :=
  (fst (spec_anchorTop B), rect_y B + rect_height B).

Definition spec_spaceAbove (margin : Q) (B : DOMRect) : Q :=
  snd (spec_anchorTop B) - margin.

Definition spec_spaceBelow (margin viewportHeight : Q) (B : DOMRect) : Q :=
  viewportHeight - snd (spec_anchorBottom B) - margin.

Definition spec_placeAbove (margin viewportHeight : Q) (B T : DOMRect) : Prop :=
  rect_height T <= spec_spaceAbove margin B \/
  spec_spaceBelow margin viewportHeight B <= spec_spaceAbove margin B.

Definition spec_x (B T : DOMRect) : Q :=
  fst (spec_anchorTop B) - rect_width T / 2.

Definition spec_y (margin : Q) (placeAbove : bool) (B T : DOMRect) : Q :=
  if placeAbove
  then snd (spec_anchorTop B) - rect_height T - margin
  else snd (spec_anchorBottom B) + margin.

(** Modelled from the spec: [getCombinedBounds] (module [jsx], not among
    the sources) returns "the union bounding box of all selected
    elements".  Used to run [placeEditBar] on concrete selections. *)
Definition unionRect (a b : DOMRect) : DOMRect :=
  let x := Qmin (rect_x a) (rect_x b) in
  let y := Qmin (rect_y a) (rect_y b) in
  let right := Qmax (rect_x a + rect_width a) (rect_x b + rect_width b) in
  let bottom := Qmax (rect_y a + rect_height a) (rect_y b + rect_height b) in
  mkRect x y (right - x) (bottom - y).

Definition unionBounds (rects : list DOMRect) : DOMRect :=
  match rects with
  | [] => mkRect 0 0 0 0
  | r :: rest => fold_left unionRect rest r
  end.

(** The toolbar is positioned against the viewport (no positioned
    ancestor other than [body] / [documentElement]). *)
Definition hostedByViewport (m : Measured) : Prop :=
  match offsetParent m with
  | opAncestor _ => False
  | _ => True
  end.

End Placement.

(** ** Toolbar placement ([placeEditBar]) on binary64 numbers *)

Module PlacementIEEE.
Local Open Scope float_scope.

(** [DOMRect], as returned by [getBoundingClientRect]. Element boxes have
    a non-negative size, so [left] is [x] and [top] is [y]. *)
Record DOMRect := mkRect {
  rect_x : float;
  rect_y : float;
  rect_width : float;
  rect_height : float
}.

Definition rect_left (r : DOMRect) : float := rect_x r.
Definition rect_top (r : DOMRect) : float := rect_y r.

(** What [container.offsetParent] can be: [null], [document.body],
    [document.documentElement], or another positioned ancestor, of which
    only the bounding box is read. *)
Inductive OffsetParent :=
| opNull
| opBody
| opDocumentElement
| opAncestor (parentRect : DOMRect).

(** The part of [document] / [window] that [placeEditBar] reads. *)
Record Document := mkDocument {
  clientWidth : float;
  clientHeight : float;
  scrollLeft : float;
  scrollTop : float;
  window_scrollX : float;
  window_scrollY : float
}.

(** The part of the toolbar container that [placeEditBar] reads. *)
Record Measured := mkMeasured {
  offsetParent : OffsetParent;
  containerRect : DOMRect
}.

(** The numbers written into [container.style.left] /
    [container.style.top], in pixels. *)
Record Position := mkPosition {
  style_left : float;
  style_top : float
}.

(** [a || b] on numbers: [+0], [-0] and [NaN] are falsy. *)
Definition jsOr (a b : float) : float :=
  if is_nan a || is_zero a then b else a.

(** [a >= b]: false when either side is [NaN]. *)
Definition geq (a b : float) : bool := b <=? a.

(** [Math.max(a, b)]: [NaN] if either is, and [+0] is larger than [-0]. *)
Definition Math_max (a b : float) : float :=
  if is_nan a || is_nan b then nan
  else if a <? b then b
  else if b <? a then a
  else if get_sign a then b else a.

(** [Math.min(a, b)]: [NaN] if either is, and [-0] is smaller than [+0]. *)
Definition Math_min (a b : float) : float :=
  if is_nan a || is_nan b then nan
  else if a <? b then a
  else if b <? a then b
  else if get_sign a then a else b.

(** [Math.min(Math.max(value, min), max)] *)
Definition clamp (value min max : float) : float :=
  Math_min (Math_max value min) max.

Definition offset : float := 8.

Section WithBounds.

(** [getCombinedBounds] is imported from [jsx] and is not part of the
    sources at hand: it is a parameter of the placement. *)
Variable getCombinedBounds : list DOMRect -> DOMRect.

(** [spaceAbove >= containerRect.height || spaceAbove >= spaceBelow],
    with [spaceBelow = viewportHeight - anchorBottom.y - offset] evaluated
    from the left. *)
Definition shouldPlaceAbove (doc : Document) (m : Measured)
    (combinedBounds : DOMRect) : bool :=
  let viewportHeight := clientHeight doc in
  let anchorTop_y := rect_y combinedBounds in
  let anchorBottom_y := rect_y combinedBounds + rect_height combinedBounds in
  let spaceAbove := anchorTop_y - offset in
  let spaceBelow := viewportHeight - anchorBottom_y - offset in
  geq spaceAbove (rect_height (containerRect m)) || geq spaceAbove spaceBelow.

(** [placeEditBar(container, selection)], on the bounding boxes of the
    selected elements. [None]: the early return, nothing is written. *)
Definition placeEditBar (doc : Document) (m : Measured)
    (rects : list DOMRect) : option Position :=
  match rects with
  | [] => None
  | _ :: _ =>
    let combinedBounds := getCombinedBounds rects in
    let offsetParent :=
      match offsetParent m with
      | opNull => opDocumentElement
      | p => p
      end in
    let viewportHeight := clientHeight doc in
    let viewportWidth := clientWidth doc in
    let containerRect := containerRect m in
    let anchorTop_x := rect_x combinedBounds + rect_width combinedBounds / 2 in
    let anchorTop_y := rect_y combinedBounds in
    let anchorBottom_y := rect_y combinedBounds + rect_height combinedBounds in
    let above := shouldPlaceAbove doc m combinedBounds in
    match offsetParent with
    | opAncestor parentRect =>
      let left := anchorTop_x - rect_left parentRect - rect_width containerRect / 2 in
      let left :=
        clamp left 0 (Math_max (rect_width parentRect - rect_width containerRect) 0) in
      let top :=
        if above
        then anchorTop_y - rect_top parentRect - rect_height containerRect - offset
        else anchorBottom_y - rect_top parentRect + offset in
      let top :=
        clamp top 0 (Math_max (rect_height parentRect - rect_height containerRect) 0) in
      Some (mkPosition left top)
    | _ =>
      let scrollX := jsOr (window_scrollX doc) (scrollLeft doc) in
      let scrollY := jsOr (window_scrollY doc) (scrollTop doc) in
      let left := scrollX + anchorTop_x - rect_width containerRect / 2 in
      let left :=
        clamp left scrollX
          (scrollX + Math_max (viewportWidth - rect_width containerRect) 0) in
      let top :=
        if above
        then scrollY + anchorTop_y - rect_height containerRect - offset
        else scrollY + anchorBottom_y + offset in
      let top :=
        clamp top scrollY
          (scrollY + Math_max (viewportHeight - rect_height containerRect) 0) in
      Some (mkPosition left top)
    end
  end.

End WithBounds.

(** *** The placement rule in the specification's words, on doubles

    The positioning coordinate space that hosts the toolbar is either the
    global viewport, accounting for the scroll offset, or the box of a
    positioned ancestor.  [host_x], [host_y] translate viewport
    coordinates into that space; the other fields are the extent over
    which the toolbar's corner may range. *)
Record HostSpace := mkHost {
  host_x : float -> float;
  host_y : float -> float;
  host_xmin : float;
  host_xmax : float;
  host_ymin : float;
  host_ymax : float
}.

Definition spec_hostSpace (doc : Document) (m : Measured) : HostSpace :=
  let T := containerRect m in
  match offsetParent m with
  | opAncestor P =>
    mkHost (fun x => x - rect_left P) (fun y => y - rect_top P)
           0 (Math_max (rect_width P - rect_width T) 0)
           0 (Math_max (rect_height P - rect_height T) 0)
  | _ =>
    let sx := jsOr (window_scrollX doc) (scrollLeft doc) in
    let sy := jsOr (window_scrollY doc) (scrollTop doc) in
    mkHost (fun x => sx + x) (fun y => sy + y)
           sx (sx + Math_max (clientWidth doc - rect_width T) 0)
           sy (sy + Math_max (clientHeight doc - rect_height T) 0)
  end.

Definition spec_anchorTop (B : DOMRect) : float * float :=
  (rect_x B + rect_width B / 2, rect_y B).

Definition spec_anchorBottom (B : DOMRect) : float * float :=
  (fst (spec_anchorTop B), rect_y B + rect_height B).

Definition spec_spaceAbove (margin : float) (B : DOMRect) : float :=
  snd (spec_anchorTop B) - margin.

Definition spec_spaceBelow (margin viewportHeight : float) (B : DOMRect) : float :=
  viewportHeight - snd (spec_anchorBottom B) - margin.

Definition spec_placeAbove (margin viewportHeight : float) (B T : DOMRect) : Prop :=
  (rect_height T <=? spec_spaceAbove margin B) = true \/
  (spec_spaceBelow margin viewportHeight B <=? spec_spaceAbove margin B) = true.

Definition spec_x (H : HostSpace) (B T : DOMRect) : float :=
  host_x H (fst (spec_anchorTop B)) - rect_width T / 2.

Definition spec_y (H : HostSpace) (margin : float) (placeAbove : bool)
    (B T : DOMRect) : float :=
  if placeAbove
  then host_y H (snd (spec_anchorTop B)) - rect_height T - margin
  else host_y H (snd (spec_anchorBottom B)) + margin.

(** [p] lies in the extent from [lo] to [hi]; of an extent whose ends are
    out of order only the upper end binds. *)
Definition spec_within (lo hi p : float) : Prop :=
  (p <=? hi) = true /\ ((lo <=? hi) = true -> (lo <=? p) = true).

(** Modelled from the spec: [getCombinedBounds] (module [jsx], not among
    the sources) returns "the union bounding box of all selected
    elements".  Used to run [placeEditBar] on concrete selections. *)
Definition unionRect (a b : DOMRect) : DOMRect :=
  let x := Math_min (rect_x a) (rect_x b) in
  let y := Math_min (rect_y a) (rect_y b) in
  let right := Math_max (rect_x a + rect_width a) (rect_x b + rect_width b) in
  let bottom := Math_max (rect_y a + rect_height a) (rect_y b + rect_height b) in
  mkRect x y (right - x) (bottom - y).

Definition unionBounds (rects : list DOMRect) : DOMRect :=
  match rects with
  | [] => mkRect 0 0 0 0
  | r :: rest => fold_left unionRect rest r
  end.

(** The toolbar is positioned against the viewport (no positioned
    ancestor other than [body] / [documentElement]). *)
Definition hostedByViewport (m : Measured) : Prop :=
  match offsetParent m with
  | opAncestor _ => False
  | _ => True
  end.

End PlacementIEEE.

(** ** The edit bar plugin ([EditBar]) and the React adapter *)

Module EditBar.
Import Placement.

(** Attribute values ([Record<string, any>] holds numbers and strings). *)
Inductive AttrValue :=
| VNum (n : Z)
| VStr (s : string).

#[global] Instance AttrValue_eq_dec : EqDecision AttrValue.
Proof. solve_decision. Defined.

Abbreviation Attrs := (gmap string AttrValue).

(** [SelectionType = 'text' | 'icon' | 'geometry' | 'mixed'] *)
Inductive SelectionType :=
| text
| icon
| geometry
| mixed.

#[global] Instance SelectionType_eq_dec : EqDecision SelectionType.
Proof. solve_decision. Defined.

(** A React root created by [ReactDOM.createRoot], with the element that
    was rendered into it. *)
Record ReactRoot := mkRoot {
  root_element : string
}.

#[global] Instance ReactRoot_eq_dec : EqDecision ReactRoot.
Proof. solve_decision. Defined.

(** A toolbar item ([EditItem = HTMLElement]).  [editBarCleanup] is the
    [__editBarCleanup] property of [CleanableHTMLElement]: when present,
    calling it unmounts the React root mounted inside the element. *)
Record HTMLElement := mkItem {
  item_label : string;
  editBarCleanup : option ReactRoot
}.

#[global] Instance HTMLElement_eq_dec : EqDecision HTMLElement.
Proof. solve_decision. Defined.

(** What the plugin imports from modules that are not among the sources
    ([utils], [jsx], [edit-items]): taken as parameters.  [Element]
    equality stands for [===] on element references.  The command manager
    that the item factories also receive is an opaque handle and is left
    out. *)
Class Externals := {
  Element : Type;
  Element_eq_dec :: EqDecision Element;
  isEditableText : Element -> bool;
  isIconElement : Element -> bool;
  isGeometryElement : Element -> bool;
  (** [getTextElementProps(e).attributes], possibly [undefined] *)
  textAttributes : Element -> option Attrs;
  getIconAttrs : Element -> Attrs;
  getBoundingClientRect : Element -> DOMRect;
  getCombinedBounds : list DOMRect -> DOMRect;
  FontColor : list Element -> Attrs -> HTMLElement;
  FontSize : list Element -> Attrs -> HTMLElement;
  FontAlign : list Element -> Attrs -> HTMLElement;
  FontFamily : list Element -> Attrs -> HTMLElement;
  IconColor : list Element -> Attrs -> HTMLElement;
  (** the last argument is [enableDistribution] *)
  ElementAlign : list Element -> Attrs -> bool -> HTMLElement
}.

(** Modelled from the spec: [getCommonAttrs] (module [utils], not among
    the sources).  "An attribute key is included in the merged result only
    if every element shares one identical value for that key": the keys of
    the first record whose value every other record repeats. *)
Definition getCommonAttrs (attrs : list Attrs) : Attrs :=
  match attrs with
  | [] => ∅
  | first :: rest =>
    filter (λ kv, Forall (λ a : Attrs, a !! kv.1 = Some kv.2) rest) first
  end.

Section WithExternals.
Context `{ext : Externals}.

(** [Selection] *)
Abbreviation Selection := (list Element).

(** *** Selection classification *)

Record Flags := mkFlags {
  hasText : bool;
  hasIcon : bool;
  hasGeometry : bool
}.

(** The body of the [for] loop of [getSelectionType], up to the [break]. *)
Definition probeItem (item : Element) (f : Flags) : Flags :=
  if isEditableText item then mkFlags true (hasIcon f) (hasGeometry f)
  else if isIconElement item then mkFlags (hasText f) true (hasGeometry f)
  else if isGeometryElement item then mkFlags (hasText f) (hasIcon f) true
  else f.

Definition noFlags : Flags := mkFlags false false false.

Definition allObserved (f : Flags) : bool :=
  hasText f && hasIcon f && hasGeometry f.

(** The loop of [getSelectionType]; also returns the items that were
    never probed because of the [break]. *)
Fixpoint probeLoop (selection : Selection) (f : Flags) : Flags * Selection :=
  match selection with
  | [] => (f, [])
  | item :: rest =>
    let f' := probeItem item f in
    if allObserved f' then (f', rest) else probeLoop rest f'
  end.

Definition classify (f : Flags) : SelectionType :=
  if hasText f && negb (hasIcon f) && negb (hasGeometry f) then text
  else if negb (hasText f) && hasIcon f && negb (hasGeometry f) then icon
  else if negb (hasText f) && negb (hasIcon f) && hasGeometry f then geometry
  else mixed.

Definition getSelectionType (selection : Selection) : SelectionType :=
  classify (probeLoop selection noFlags).1.

(** The capability an element is counted under: the first probe of the
    [if / else if] chain that answers [true]. *)
Inductive Capability :=
| capText
| capIcon
| capGeometry.

#[global] Instance Capability_eq_dec : EqDecision Capability.
Proof. solve_decision. Defined.

Definition capabilityOf (item : Element) : option Capability :=
  if isEditableText item then Some capText
  else if isIconElement item then Some capIcon
  else if isGeometryElement item then Some capGeometry
  else None.

(** Capability [c] is present in the selection. *)
Definition present (c : Capability) (selection : Selection) : Prop :=
  ∃ item, item ∈ selection ∧ capabilityOf item = Some c.

(** The flags after probing every item of [selection], without the
    [break]. *)
Definition probeAll (selection : Selection) (f : Flags) : Flags :=
  fold_left (λ f item, probeItem item f) selection f.


(** The flag that records capability [c]. *)
Definition flagOf (c : Capability) (f : Flags) : bool :=
  match c with
  | capText => hasText f
  | capIcon => hasIcon f
  | capGeometry => hasGeometry f
  end.

(** [present], as a test. *)
Definition observed (c : Capability) (selection : Selection) : bool :=
  existsb (λ item, bool_decide (capabilityOf item = Some c)) selection.

(** *** Merged attributes *)

(** [x || {}] *)
Definition orEmpty (x : option Attrs) : Attrs := default ∅ x.

Definition getSelectionAttributes (selection : Selection) : Attrs :=
  match selection with
  | [] => ∅
  | first :: _ =>
    match getSelectionType selection with
    | text =>
      if (length selection =? 1)%nat
      then orEmpty (textAttributes first)
      else getCommonAttrs (map (λ text, orEmpty (textAttributes text)) selection)
    | icon =>
      if (length selection =? 1)%nat
      then getIconAttrs first
      else getCommonAttrs (map (λ icon, getIconAttrs icon) selection)
    | _ => ∅
    end
  end.

(** [EditBarContext]; [commander], [state] and [commands] are opaque
    handles that stay the same for the life of the plugin. *)
Record EditBarContext := mkContext {
  ctx_selection : Selection;
  ctx_attributes : Attrs
}.

Definition buildContext (selection : Selection) : EditBarContext :=
  mkContext selection (getSelectionAttributes selection).

(** *** Configuration *)

(** [CustomEditItem] and [EditBarRenderer]:
    [(context) => HTMLElement | null] *)
Definition CustomEditItem := EditBarContext -> option HTMLElement.
Definition EditBarRenderer := EditBarContext -> option HTMLElement.

Record EditBarItemConfig := mkItemConfig {
  cfg_text : option (list CustomEditItem);
  cfg_icon : option (list CustomEditItem);
  cfg_geometry : option (list CustomEditItem);
  cfg_mixed : option (list CustomEditItem);
  cfg_prepend : option (list CustomEditItem);
  cfg_append : option (list CustomEditItem)
}.

(** [EditBarOptions].  [style], [className] and [getContainer] only
    affect how and where the container is created and are left out. *)
Record EditBarOptions := mkOptions {
  opt_render : option EditBarRenderer;
  opt_items : option EditBarItemConfig;
  opt_includeDefaults : option bool;
  opt_filter : option (Selection -> bool)
}.

(** [itemConfig?.[selectionType]] *)
Definition cfg_ofType (selectionType : SelectionType) (cfg : EditBarItemConfig)
    : option (list CustomEditItem) :=
  match selectionType with
  | text => cfg_text cfg
  | icon => cfg_icon cfg
  | geometry => cfg_geometry cfg
  | mixed => cfg_mixed cfg
  end.

(** *** The React adapter *)

(** [createReactEditBar(Component, React, ReactDOM)]: the renderer makes a
    fresh [div], mounts a root rendering [Component] with the context as
    props, and stores the unmounting closure on the element. *)
Definition createReactEditBar (Component : EditBarContext -> string)
    : EditBarRenderer :=
  λ context,
    let root := mkRoot (Component context) in
    Some (mkItem "div" (Some root)).

(** [cleanupReactEditBar(element)]: run and delete the cleanup hook.
    Returns the element without the hook and the roots unmounted. *)
Definition cleanupReactEditBar (element : HTMLElement)
    : HTMLElement * list ReactRoot :=
  match editBarCleanup element with
  | Some root => (mkItem (item_label element) None, [root])
  | None => (element, [])
  end.

(** *** Item resolution *)

(** [xs.filter((item) => item !== null)] *)
Definition filterNonNull {A} (xs : list (option A)) : list A :=
  omap id xs.

Definition renderCustomItems (factories : list CustomEditItem)
    (context : EditBarContext) : list HTMLElement :=
  filterNonNull (map (λ factory, factory context) factories).

Definition getElementCollectionEditItems (selection : Selection)
    : list HTMLElement :=
  if (length selection <=? 1)%nat then []
  else [ElementAlign selection ∅ (2 <? length selection)%nat].

Definition getTextEditItems (text : Element) : list HTMLElement :=
  let attributes := orEmpty (textAttributes text) in
  map (λ item, item [text] attributes) [FontColor; FontSize; FontAlign; FontFamily].

Definition getTextCollectionEditItems (selection : Selection)
    : list HTMLElement :=
  let attrs :=
    getCommonAttrs (map (λ text, orEmpty (textAttributes text)) selection) in
  let items :=
    map (λ item, item selection attrs) [FontColor; FontSize; FontAlign; FontFamily] in
  let commonItems := getElementCollectionEditItems selection in
  items ++ commonItems.

Definition getIconEditItems (selection : Selection) (first : Element)
    : list HTMLElement :=
  let attrs := getIconAttrs first in
  map (λ item, item selection attrs) [IconColor].

Definition getIconCollectionEditItems (selection : Selection)
    : list HTMLElement :=
  let attrs := getCommonAttrs (map (λ icon, getIconAttrs icon) selection) in
  map (λ item, item selection attrs) [IconColor].

Definition getGeometryEditItems (_selection : Selection) : list HTMLElement :=
  [].

Definition getGeometryCollectionEditItems (selection : Selection)
    : list HTMLElement :=
  getElementCollectionEditItems selection.

(** [getDefaultItems].  The single-element cases read [selection[0]];
    with an empty selection (which no caller passes) the collection case
    is taken. *)
Definition getDefaultItems (selection : Selection)
    (selectionType : SelectionType) : list HTMLElement :=
  match selectionType, selection with
  | text, [first] => getTextEditItems first
  | text, _ => getTextCollectionEditItems selection
  | icon, [first] => getIconEditItems selection first
  | icon, _ => getIconCollectionEditItems selection
  | geometry, [_] => getGeometryEditItems selection
  | geometry, _ => getGeometryCollectionEditItems selection
  | mixed, _ => getElementCollectionEditItems selection
  end.

(** [Boolean(item)] on an [HTMLElement]: objects are truthy. *)
Definition truthy (_ : HTMLElement) : bool := true.

(** [getEditItems(selection, context)], with [this.options] as first
    argument.  [items] is the array the source pushes onto. *)
Definition getEditItems (options : option EditBarOptions)
    (selection : Selection) (context : option EditBarContext)
    : list HTMLElement :=
  let itemConfig := options ≫= opt_items in
  let includeDefaults := default true (options ≫= opt_includeDefaults) in
  let selectionType := getSelectionType selection in
  let ctx := default (buildContext selection) context in
  let items := [] in
  let items :=
    match itemConfig ≫= cfg_prepend with
    | Some prepend => items ++ renderCustomItems prepend ctx
    | None => items
    end in
  let items :=
    if includeDefaults
    then items ++ getDefaultItems selection selectionType
    else items in
  let items :=
    match itemConfig ≫= cfg_ofType selectionType with
    | Some typeItems => items ++ renderCustomItems typeItems ctx
    | None => items
    end in
  let items :=
    match itemConfig ≫= cfg_append with
    | Some append => items ++ renderCustomItems append ctx
    | None => items
    end in
  List.filter truthy items.

(** *** The container and the plugin state *)

Inductive Visibility :=
| hidden
| visible.

(** The toolbar [div]: [style.visibility], its children, [style.left] and
    [style.top], and whether it is still attached to its parent. *)
Record Container := mkContainer {
  visibility : Visibility;
  children : list HTMLElement;
  position : Position;
  attached : bool
}.

(** What the plugin does to the outside, in program order. *)
Inductive Effect :=
| eUnmount (root : ReactRoot)
| eSetItems (items : list HTMLElement)
| ePlace
| eShow
| eHide
| eRemove.

Inductive EventName :=
| ev_selection_change
| ev_selection_geometrychange
| ev_history_change.

#[global] Instance EventName_eq_dec : EqDecision EventName.
Proof. solve_decision. Defined.

(** Listeners on the shared emitter: the three arrow-function fields of
    this plugin, and listeners of other subscribers. *)
Inductive Listener :=
| this_handleSelectionChanged
| this_handleGeometryChanged
| this_handleHistoryChanged
| foreignListener (n : nat).

#[global] Instance Listener_eq_dec : EqDecision Listener.
Proof. solve_decision. Defined.

(** The plugin ([this.container], [this.selection]), the emitter's
    subscriptions and the log of effects. *)
Record State := mkState {
  container : option Container;
  selection : Selection;
  listeners : list (EventName * Listener);
  effects : list Effect
}.

(** What the browser reports when the plugin measures: the document and
    the layout of the container in its current state. *)
Record Dom := mkDom {
  dom_document : Document;
  dom_measure : Container -> Measured
}.

Definition showContainer (c : Container) : Container :=
  mkContainer visible (children c) (position c) (attached c).

Definition hideContainer (c : Container) : Container :=
  mkContainer hidden (children c) (position c) (attached c).

Definition setContainerItems (c : Container) (items : list HTMLElement)
    : Container :=
  mkContainer (visibility c) items (position c) (attached c).

(** [cleanupContainerItems]: every child is cleaned up in order. *)
Definition cleanupContainerItems (c : Container) : Container * list ReactRoot :=
  let cleaned := map cleanupReactEditBar (children c) in
  (mkContainer (visibility c) (map fst cleaned) (position c) (attached c),
   concat (map snd cleaned)).

(** [this.placeEditBar(container, selection)] *)
Definition placeContainer (dom : Dom) (c : Container) (selection : Selection)
    : Container :=
  match placeEditBar getCombinedBounds (dom_document dom) (dom_measure dom c)
          (map getBoundingClientRect selection) with
  | Some p => mkContainer (visibility c) (children c) p (attached c)
  | None => c
  end.

(** [getOrCreateEditBar]: a new container starts hidden, at [(0, 0)], and
    is appended to its parent. *)
Definition newContainer : Container :=
  mkContainer hidden [] (mkPosition 0 0) true.

Definition getOrCreateEditBar (st : State) : Container :=
  match container st with
  | Some c => c
  | None => newContainer
  end.

(** [if (this.container) hideContainer(this.container); return;] *)
Definition hideIfPresent (st : State) (next : Selection) : State :=
  match container st with
  | Some c => mkState (Some (hideContainer c)) next (listeners st)
                (effects st ++ [eHide])
  | None => mkState None next (listeners st) (effects st)
  end.

(** The common tail of both rendering paths: clean up, set the items,
    place, show. *)
Definition renderItems (dom : Dom) (st : State) (c : Container)
    (next : Selection) (items : list HTMLElement) : State :=
  let '(c, roots) := cleanupContainerItems c in
  let c := setContainerItems c items in
  let c := placeContainer dom c next in
  let c := showContainer c in
  mkState (Some c) next (listeners st)
    (effects st ++ map eUnmount roots ++ [eSetItems items; ePlace; eShow]).

Definition handleSelectionChanged (options : option EditBarOptions)
    (dom : Dom) (st : State) (next : Selection) : State :=
  let rejected :=
    match options ≫= opt_filter with
    | Some filter => negb (filter next)
    | None => false
    end in
  if rejected then hideIfPresent st next
  else if (length next =? 0)%nat then hideIfPresent st next
  else
    let context := buildContext next in
    match options ≫= opt_render with
    | Some render =>
      match render context with
      | None => hideIfPresent st next
      | Some customContent =>
        let c := getOrCreateEditBar st in
        renderItems dom st c next [customContent]
      end
    | None =>
      let c := getOrCreateEditBar st in
      let items := getEditItems options next (Some context) in
      if (length items =? 0)%nat
      then mkState (Some (hideContainer c)) next (listeners st)
             (effects st ++ [eHide])
      else renderItems dom st c next items
    end.

(** [placeEditBar] then [showContainer], shared by the two handlers
    below. *)
Definition replaceAndShow (dom : Dom) (st : State) (c : Container) : State :=
  let c := placeContainer dom c (selection st) in
  let c := showContainer c in
  mkState (Some c) (selection st) (listeners st)
    (effects st ++ [ePlace; eShow]).

(** [this.selection.indexOf(target) === -1] *)
Definition notSelected (st : State) (target : Element) : bool :=
  bool_decide (target ∉ selection st).

Definition handleGeometryChanged (dom : Dom) (st : State) (target : Element)
    : State :=
  match container st with
  | Some c => if notSelected st target then st else replaceAndShow dom st c
  | None => st
  end.

Definition handleHistoryChanged (dom : Dom) (st : State) : State :=
  match container st with
  | Some c =>
    if (length (selection st) =? 0)%nat then st else replaceAndShow dom st c
  | None => st
  end.

(** *** Lifecycle and event delivery *)

(** [emitter.on(event, listener)] *)
Definition on (event : EventName) (l : Listener) (st : State) : State :=
  mkState (container st) (selection st) (listeners st ++ [(event, l)])
    (effects st).

(** [emitter.off(event, listener)]: drops the subscriptions with exactly
    this event and listener. *)
Definition off (event : EventName) (l : Listener) (st : State) : State :=
  mkState (container st) (selection st)
    (List.filter (λ s, negb (bool_decide (s = (event, l)))) (listeners st))
    (effects st).

Definition init (st : State) : State :=
  let st := on ev_selection_change this_handleSelectionChanged st in
  let st := on ev_selection_geometrychange this_handleGeometryChanged st in
  on ev_history_change this_handleHistoryChanged st.

(** [this.container?.remove()] *)
Definition removeContainer (st : State) : State :=
  match container st with
  | Some c =>
    mkState (Some (mkContainer (visibility c) (children c) (position c) false))
      (selection st) (listeners st) (effects st ++ [eRemove])
  | None => st
  end.

Definition destroy (st : State) : State :=
  let st := off ev_selection_change this_handleSelectionChanged st in
  let st := off ev_selection_geometrychange this_handleGeometryChanged st in
  let st := off ev_history_change this_handleHistoryChanged st in
  removeContainer st.

(** Events on the bus, with the payload fields the plugin reads. *)
Inductive Event :=
| SelectionChange (next : Selection)
| GeometryChange (target : Element)
| HistoryChange.

Definition eventName (ev : Event) : EventName :=
  match ev with
  | SelectionChange _ => ev_selection_change
  | GeometryChange _ => ev_selection_geometrychange
  | HistoryChange => ev_history_change
  end.

(** One listener called with an event.  A listener of this plugin that is
    subscribed under another event's name never occurs ([init] is the
    only subscriber); it is given no effect. *)
Definition callListener (options : option EditBarOptions) (dom : Dom)
    (l : Listener) (ev : Event) (st : State) : State :=
  match l, ev with
  | this_handleSelectionChanged, SelectionChange next =>
    handleSelectionChanged options dom st next
  | this_handleGeometryChanged, GeometryChange target =>
    handleGeometryChanged dom st target
  | this_handleHistoryChanged, HistoryChange =>
    handleHistoryChanged dom st
  | _, _ => st
  end.

(** [emitter.emit(event, payload)]: the listeners subscribed to the event
    when the emission starts, in subscription order. *)
Definition emit (options : option EditBarOptions) (dom : Dom)
    (st : State) (ev : Event) : State :=
  fold_left
    (λ st sub,
       if bool_decide (sub.1 = eventName ev)
       then callListener options dom sub.2 ev st
       else st)
    (listeners st) st.

Definition run (options : option EditBarOptions) (dom : Dom)
    (st : State) (events : list Event) : State :=
  fold_left (emit options dom) events st.

(** A plugin just constructed: no container, empty selection. *)
Definition initial : State := mkState None [] [] [].

Definition isVisible (st : State) : bool :=
  match container st with
  | Some c => match visibility c with visible => true | hidden => false end
  | None => false
  end.

(** React roots that are mounted inside the container and whose cleanup
    hook has not run. *)
Definition pendingRoots (items : list HTMLElement) : list ReactRoot :=
  omap editBarCleanup items.

Definition attachedContent (st : State) : list HTMLElement :=
  match container st with
  | Some c => children c
  | None => []
  end.

(** *** Vocabulary for the statements *)

(** The items an optional list of factories contributes. *)
Definition customItems (factories : option (list CustomEditItem))
    (context : EditBarContext) : list HTMLElement :=
  match factories with
  | Some fs => renderCustomItems fs context
  | None => []
  end.

(** The caller-supplied filter, when present, accepts the selection. *)
Definition accepts (options : option EditBarOptions) (selection : Selection)
    : bool :=
  match options ≫= opt_filter with
  | Some filter => filter selection
  | None => true
  end.

(** The same options with another item configuration. *)
Definition withItems (options : option EditBarOptions)
    (items : option EditBarItemConfig) (includeDefaults : option bool)
    : option EditBarOptions :=
  match options with
  | Some o => Some (mkOptions (opt_render o) items includeDefaults (opt_filter o))
  | None => None
  end.

(** The toolbar is never hidden while content with a live React root is
    attached to it. *)
Definition disposedWhenHidden (options : option EditBarOptions) (dom : Dom)
    : Prop :=
  ∀ events,
    let st := run options dom (init initial) events in
    isVisible st = false -> pendingRoots (attachedContent st) = [].

(** The three subscriptions of [init]. *)
Definition ownSubscriptions : list (EventName * Listener) :=
  [(ev_selection_change, this_handleSelectionChanged);
   (ev_selection_geometrychange, this_handleGeometryChanged);
   (ev_history_change, this_handleHistoryChanged)].

End WithExternals.

End EditBar.

(** ** A small document to run the plugin on

    Elements are referred to by number: 1 and 2 are editable texts (font
    sizes 14 and 16, both coloured [#000]), 3 is an icon, 4 and 5 are
    rectangles filled with [#000]; the default items are plain elements
    named after their factories. *)

Module Fixture.
Import Placement EditBar.

Definition fx_isEditableText (e : nat) : bool := bool_decide (e = 1 ∨ e = 2).
Definition fx_isIconElement (e : nat) : bool := bool_decide (e = 3).
Definition fx_isGeometryElement (e : nat) : bool := bool_decide (e = 4 ∨ e = 5).

(** The attributes an element carries. *)
Definition fx_attrs (e : nat) : Attrs :=
  match e with
  | 1 => {[ "font-size" := VNum 14; "color" := VStr "#000" ]}
  | 2 => {[ "font-size" := VNum 16; "color" := VStr "#000" ]}
  | 3 => {[ "fill" := VStr "#f00" ]}
  | 4 | 5 => {[ "fill" := VStr "#000" ]}
  | _ => ∅
  end.

Definition fx_rect (e : nat) : DOMRect :=
  match e with
  | 1 => mkRect 100 50 40 20
  | _ => mkRect 10 120 30 30
  end.

#[global] Instance fixture : Externals := {|
  Element := nat;
  isEditableText := fx_isEditableText;
  isIconElement := fx_isIconElement;
  isGeometryElement := fx_isGeometryElement;
  textAttributes := λ e, Some (fx_attrs e);
  getIconAttrs := fx_attrs;
  getBoundingClientRect := fx_rect;
  getCombinedBounds := unionBounds;
  FontColor := λ _ _, mkItem "FontColor" None;
  FontSize := λ _ _, mkItem "FontSize" None;
  FontAlign := λ _ _, mkItem "FontAlign" None;
  FontFamily := λ _ _, mkItem "FontFamily" None;
  IconColor := λ _ _, mkItem "IconColor" None;
  ElementAlign := λ _ _ _, mkItem "ElementAlign" None
|}.

(** A 300 x 200 viewport without scrolling; the toolbar measures 60 x 30
    and is positioned against [body]. *)
Definition fx_dom : Dom :=
  mkDom (mkDocument 300 200 0 0 0 0)
        (λ _, mkMeasured opBody (mkRect 0 0 60 30)).

(** Item configuration: one extra item for text selections, two prepended
    factories of which the second declines, one appended item. *)
Definition fx_items : EditBarItemConfig :=
  mkItemConfig
    (Some [λ _, Some (mkItem "Underline" None)]) None None None
    (Some [λ _, Some (mkItem "Bold" None); λ _, None])
    (Some [λ _, Some (mkItem "Help" None)]).

Definition fx_options_items : option EditBarOptions :=
  Some (mkOptions None (Some fx_items) None None).

(** A toolbar replaced by a React component. *)
Definition fx_options_react : option EditBarOptions :=
  Some (mkOptions (Some (createReactEditBar (λ _, "CustomToolbar")))
          None None None).

(** Only selections made of editable texts get a toolbar. *)
Definition fx_options_filter : option EditBarOptions :=
  Some (mkOptions None None None (Some (forallb fx_isEditableText))).

(** The merged-attributes rule read for every single-capability
    classification, geometry included, on the elements of the fixture. *)
Definition mergedIffShared_everySingleType : Prop :=
  ∀ (sel : list nat) (k : string),
    2 <= length sel ->
    getSelectionType sel ≠ mixed ->
    (is_Some (getSelectionAttributes sel !! k) <->
     ∃ v, ∀ e, e ∈ sel -> fx_attrs e !! k = Some v).

End Fixture.

(** ** The [Infographic] runtime: options, rendering, the event bridge *)

Module Infographic.

(** A callback prop ([onChange], [onHistoryChange], ...), by name. *)
Definition Callback := string.

(** [IEditor], as far as the bridge queries it. *)
Record IEditor := mkEditor {
  canUndo : bool;
  canRedo : bool;
  getHistorySize : nat
}.

Inductive Op :=
| op_add
| op_remove
| op_update.

Inductive Action :=
| execute
| undo
| redo.

Inductive ChangeType :=
| move
| resize.

(** What the runtime imports from modules that are not among the sources
    ([options], [syntax], [renderer], [jsx], [utils], [editor]): taken as
    parameters. *)
Class Imports := {
  (** [Partial<InfographicOptions>] *)
  Options : Type;
  (** [Partial<ParsedInfographicOptions>] *)
  Parsed : Type;
  SyntaxError : Type;
  (** [SVGSVGElement] *)
  Node : Type;
  (** an element of the rendered document *)
  SVGElement : Type;
  (** [any] *)
  Value : Type;
  parseSyntax : string -> Options * list SyntaxError * list SyntaxError;
  cloneOptions : Options -> Options;
  mergeOptions : Options -> Options -> Options;
  parseOptions : Options -> Parsed;
  DEFAULT_OPTIONS : Options;
  isCompleteParsedInfographicOptions : Parsed -> bool;
  (** [parsedOptions.container], a host element named by number *)
  parsed_container : Parsed -> option nat;
  editable : Options -> bool;
  onChange : Options -> option Callback;
  onSelectionChange : Options -> option Callback;
  onHistoryChange : Options -> option Callback;
  onGeometryChange : Options -> option Callback;
  (** [renderSVG(<Structure ... />)] *)
  renderSVG : Parsed -> string;
  (** [parseSVG(svg)], possibly [null] *)
  parseSVG : string -> option Node;
  (** [new Renderer(parsedOptions, template).render()] *)
  renderer_render : Parsed -> Node -> Node;
  (** [new Editor(emitter, node, parsedOptions)] *)
  newEditor : Node -> Parsed -> IEditor
}.

Section WithImports.
Context `{imp : Imports}.

(** [StateChangePayload.changes] holds records of this shape. *)
Record ChangeRecord := mkChange {
  change_op : Op;
  change_path : string;
  change_value : Value;
  change_previousValue : option Value
}.

(** Payloads of the internal events. *)
Inductive InternalEvent :=
| options_change (changes : list ChangeRecord)
| selection_change (previous next added removed : list SVGElement)
| history_change (action : Action)
| selection_geometrychange (target : SVGElement).

Inductive InternalName :=
| n_options_change
| n_selection_change
| n_history_change
| n_selection_geometrychange.

#[global] Instance InternalName_eq_dec : EqDecision InternalName.
Proof. solve_decision. Defined.

Definition nameOf (ev : InternalEvent) : InternalName :=
  match ev with
  | options_change _ => n_options_change
  | selection_change _ _ _ _ => n_selection_change
  | history_change _ => n_history_change
  | selection_geometrychange _ => n_selection_geometrychange
  end.

Record InfographicChangeEvent := mkChangeEvent {
  ce_operation : Op;
  ce_path : string;
  ce_value : Value;
  ce_previousValue : option Value;
  ce_options : Options
}.

Record InfographicSelectionChangeEvent := mkSelectionEvent {
  se_selection : list SVGElement;
  se_added : list SVGElement;
  se_removed : list SVGElement
}.

Record InfographicHistoryChangeEvent := mkHistoryEvent {
  he_action : Action;
  he_canUndo : bool;
  he_canRedo : bool;
  he_historySize : nat
}.

Record InfographicGeometryChangeEvent := mkGeometryEvent {
  ge_target : SVGElement;
  ge_changeType : ChangeType
}.

(** The payload of ['error']: [Error | SyntaxError[]]. *)
Inductive ErrorPayload :=
| ErrorObject (message : string)
| SyntaxErrors (errors : list SyntaxError).

(** Public events, by name, with their payloads. *)
Inductive PublicEvent :=
| change (e : InfographicChangeEvent)
| selectionChange (e : InfographicSelectionChangeEvent)
| historyChange (e : InfographicHistoryChangeEvent)
| geometryChange (e : InfographicGeometryChangeEvent)
| rendered_event (node : Node) (options : Options)
| error (e : ErrorPayload)
| warning (warnings : list SyntaxError).

(** What the instance does to the outside, in program order: an emission
    of a public event, a call of a callback prop, the destruction of an
    editor. *)
Inductive Output :=
| Emitted (e : PublicEvent)
| Called (callback : Callback) (e : PublicEvent)
| EditorDestroyed (ed : IEditor).

(** The four closures that [setupEditorEventBridge] subscribes. *)
Inductive BridgeListener :=
| bridge_options_change
| bridge_selection_change
| bridge_history_change
| bridge_selection_geometrychange.

(** The fields of an [Infographic] after its constructor has run, the
    bridge subscriptions held by its emitter, the children of the host
    elements, and the outputs so far. *)
Record InfographicState := mkInfographic {
  rendered : bool;
  node : option Node;
  editor : option IEditor;
  initialOptions : Options;
  options : Options;
  parsedOptions : Parsed;
  subscriptions : list (InternalName * BridgeListener);
  hostChildren : gmap nat (list Node);
  outputs : list Output
}.

(** [string | Partial<InfographicOptions>] *)
Inductive OptionsInput :=
| Syntax (s : string)
| Object (o : Options).

Inductive Mode :=
| mode_replace
| mode_merge.

Definition output (st : InfographicState) (out : list Output) : InfographicState :=
  mkInfographic (rendered st) (node st) (editor st) (initialOptions st) (options st)
    (parsedOptions st) (subscriptions st) (hostChildren st) (outputs st ++ out).

Definition parseSyntaxOptions (input : OptionsInput)
    : Options * list SyntaxError * list SyntaxError :=
  match input with
  | Syntax s => parseSyntax s
  | Object o => (cloneOptions o, [], [])
  end.

(** [setOptions(options, mode)] after construction ([isInitial] false);
    [this.options] and [this.initialOptions] are objects, hence truthy. *)
Definition setOptions (st : InfographicState) (input : OptionsInput) (mode : Mode) : InfographicState :=
  let '(parsed, errors, warnings) := parseSyntaxOptions input in
  let base :=
    match mode with
    | mode_replace => mergeOptions (cloneOptions (initialOptions st)) parsed
    | mode_merge => mergeOptions (options st) parsed
    end in
  let st :=
    mkInfographic (rendered st) (node st) (editor st) (initialOptions st) base
      (parseOptions (mergeOptions DEFAULT_OPTIONS base))
      (subscriptions st) (hostChildren st) (outputs st) in
  let st :=
    if (length warnings =? 0)%nat then st else output st [Emitted (warning warnings)] in
  if (length errors =? 0)%nat then st else output st [Emitted (error (SyntaxErrors errors))].

(** [new Infographic(options)]: [setOptions(options, 'replace', true)] on
    the field initialisers. *)
Definition construct (input : OptionsInput) : InfographicState :=
  let '(parsed, errors, warnings) := parseSyntaxOptions input in
  let base := mergeOptions (cloneOptions parsed) parsed in
  let st :=
    mkInfographic false None None parsed base
      (parseOptions (mergeOptions DEFAULT_OPTIONS base)) [] ∅ [] in
  let st :=
    if (length warnings =? 0)%nat then st else output st [Emitted (warning warnings)] in
  if (length errors =? 0)%nat then st else output st [Emitted (error (SyntaxErrors errors))].

(** [setupEditorEventBridge]: four more subscriptions. *)
Definition bridgeSubscriptions : list (InternalName * BridgeListener) :=
  [(n_options_change, bridge_options_change);
   (n_selection_change, bridge_selection_change);
   (n_history_change, bridge_history_change);
   (n_selection_geometrychange, bridge_selection_geometrychange)].

Definition setupEditorEventBridge (st : InfographicState) : InfographicState :=
  mkInfographic (rendered st) (node st) (editor st) (initialOptions st) (options st)
    (parsedOptions st) (subscriptions st ++ bridgeSubscriptions)
    (hostChildren st) (outputs st).

(** [compose(parsedOptions)]; [None] stands for
    [throw new Error('Failed to parse SVG template')]. *)
Definition compose (parsed : Parsed) : option Node :=
  parseSVG (renderSVG parsed).

(** How a method ends. *)
Inductive Completion :=
| Returned (st : InfographicState)
| Threw (message : string) (st : InfographicState).

(** [container?.replaceChildren(node)] *)
Definition replaceChildren (container : option nat) (n : Node)
    (dom : gmap nat (list Node)) : gmap nat (list Node) :=
  match container with
  | Some c => <[c := [n]]> dom
  | None => dom
  end.

(** [performRender]; the ['loaded'] event that follows the asynchronous
    [waitForSvgLoads] is outside the model. *)
Definition performRender (st : InfographicState) : Completion :=
  let parsed := parsedOptions st in
  if negb (isCompleteParsedInfographicOptions parsed)
  then Returned (output st [Emitted (error (ErrorObject "Incomplete options"))])
  else
    match compose parsed with
    | None => Threw "Failed to parse SVG template" st
    | Some template =>
      let n := renderer_render parsed template in
      let dom := replaceChildren (parsed_container parsed) n (hostChildren st) in
      let destroyed :=
        match editor st with
        | Some ed => [EditorDestroyed ed]
        | None => []
        end in
      let st :=
        mkInfographic (rendered st) (Some n) None (initialOptions st) (options st)
          parsed (subscriptions st) dom (outputs st ++ destroyed) in
      let st :=
        if editable (options st)
        then
          setupEditorEventBridge
            (mkInfographic (rendered st) (node st) (Some (newEditor n parsed))
               (initialOptions st) (options st) (parsedOptions st)
               (subscriptions st) (hostChildren st) (outputs st))
        else st in
      let st :=
        mkInfographic true (node st) (editor st) (initialOptions st) (options st)
          (parsedOptions st) (subscriptions st) (hostChildren st) (outputs st) in
      Returned (output st [Emitted (rendered_event n (options st))])
    end.

(** [if (options)]: the empty string is falsy, objects are truthy. *)
Definition truthyInput (input : option OptionsInput) : option OptionsInput :=
  match input with
  | Some (Syntax EmptyString) => None
  | other => other
  end.

(** [render(options?)].  The [else if (!this.options && ...)] branch needs
    [this.options] to be falsy, which it never is after the constructor. *)
Definition render (st : InfographicState) (input : option OptionsInput) : Completion :=
  let st :=
    match truthyInput input with
    | Some i => setOptions st i mode_replace
    | None => st
    end in
  performRender st.

Definition update (st : InfographicState) (input : OptionsInput) : Completion :=
  performRender (setOptions st input mode_merge).

(** *** The bridge *)

(** [cb && cb(publicEvent)] *)
Definition callIfProvided (cb : option Callback) (e : PublicEvent) : list Output :=
  match cb with
  | Some f => [Called f e]
  | None => []
  end.

(** The body of each bridge closure: what it emits and calls. *)
Definition bridgeListener (l : BridgeListener) (st : InfographicState) (ev : InternalEvent)
    : list Output :=
  match l, ev with
  | bridge_options_change, options_change changes =>
    match changes with
    | [] => []
    | c :: _ =>
      let publicEvent :=
        change (mkChangeEvent (change_op c) (change_path c) (change_value c)
                  None (options st)) in
      Emitted publicEvent :: callIfProvided (onChange (options st)) publicEvent
    end
  | bridge_selection_change, selection_change previous next added removed =>
    let publicEvent := selectionChange (mkSelectionEvent next added removed) in
    Emitted publicEvent :: callIfProvided (onSelectionChange (options st)) publicEvent
  | bridge_history_change, history_change action =>
    let publicEvent :=
      historyChange
        (mkHistoryEvent action
           (default false (canUndo <$> editor st))
           (default false (canRedo <$> editor st))
           (default 0 (getHistorySize <$> editor st))) in
    Emitted publicEvent :: callIfProvided (onHistoryChange (options st)) publicEvent
  | bridge_selection_geometrychange, selection_geometrychange target =>
    let publicEvent := geometryChange (mkGeometryEvent target move) in
    Emitted publicEvent :: callIfProvided (onGeometryChange (options st)) publicEvent
  | _, _ => []
  end.

(** [this.emitter.emitter_emit(name, payload)] for an internal event: the bridge
    closures subscribed under that name run in subscription order. *)
Definition emitter_emit (st : InfographicState) (ev : InternalEvent) : InfographicState :=
  fold_left
    (λ st sub,
       if bool_decide (sub.1 = nameOf ev)
       then output st (bridgeListener sub.2 st ev)
       else st)
    (subscriptions st) st.

(** The bridge closure subscribed under the name of an event. *)
Definition bridgeOf (ev : InternalEvent) : BridgeListener :=
  match ev with
  | options_change _ => bridge_options_change
  | selection_change _ _ _ _ => bridge_selection_change
  | history_change _ => bridge_history_change
  | selection_geometrychange _ => bridge_selection_geometrychange
  end.

(** The subscriptions after [k] runs of [setupEditorEventBridge]. *)
Definition bridgedTimes (k : nat) : list (InternalName * BridgeListener) :=
  mjoin (replicate k bridgeSubscriptions).

(** States of a live instance: every editable render has subscribed the
    bridge once more, and an editor exists only after such a render. *)
Definition bridged (st : InfographicState) : Prop :=
  ∃ k, subscriptions st = bridgedTimes k /\ (is_Some (editor st) -> 1 <= k).

Definition stateOf (c : Completion) : InfographicState :=
  match c with
  | Returned st => st
  | Threw _ st => st
  end.

(** The outputs added by a step. *)
Definition newOutputs (before after : InfographicState) (out : list Output) : Prop :=
  outputs after = outputs before ++ out.

End WithImports.

End Infographic.

(** ** Options to run the runtime on

    Options are a template (missing when incomplete), the [editable] flag
    and an [onChange] / [onHistoryChange] callback; the syntax of an
    options string is the template itself. *)

Module RuntimeFixture.
Import Infographic.

Record FxOptions := mkFx {
  fx_template : option string;
  fx_editable : bool;
  fx_callback : option Callback
}.

Definition fx_merge (a b : FxOptions) : FxOptions :=
  mkFx (match fx_template b with Some t => Some t | None => fx_template a end)
       (fx_editable a || fx_editable b)
       (match fx_callback b with Some c => Some c | None => fx_callback a end).

#[global] Instance fx_imports : Imports := {|
  Options := FxOptions;
  Parsed := FxOptions;
  SyntaxError := string;
  Node := string;
  SVGElement := nat;
  Value := string;
  parseSyntax := λ s, (mkFx (Some s) false None, [], []);
  cloneOptions := λ o, o;
  mergeOptions := fx_merge;
  parseOptions := λ o, o;
  DEFAULT_OPTIONS := mkFx None false None;
  isCompleteParsedInfographicOptions := λ p, bool_decide (is_Some (fx_template p));
  parsed_container := λ _, Some 0;
  editable := fx_editable;
  onChange := fx_callback;
  onSelectionChange := λ _, None;
  onHistoryChange := fx_callback;
  onGeometryChange := λ _, None;
  renderSVG := λ p, default EmptyString (fx_template p);
  parseSVG := λ s, Some s;
  renderer_render := λ _ template, template;
  newEditor := λ _ _, mkEditor false false 0
|}.

(** An instance built without a template, so that its options are
    incomplete. *)
Definition fx_incomplete : InfographicState :=
  construct (Object (mkFx None true None)).

(** An editable instance after its first render and one executed
    command. *)
Definition fx_editing : InfographicState :=
  let st := stateOf (render (construct (Object (mkFx (Some "list") true (Some "cb")))) None) in
  mkInfographic (rendered st) (node st) (Some (mkEditor true false 1))
    (initialOptions st) (options st) (parsedOptions st) (subscriptions st)
    (hostChildren st) (outputs st).

End RuntimeFixture.

(** ** The rest of the [Infographic] life cycle: [destroy], [toDataURL] *)

Module InfographicLifecycle.
Import Infographic.

(** Public events without payload. *)
Inductive LifecycleEvent :=
| destroyed.

Section WithImports.
Context `{imp : Imports}.

(** What [destroy] leaves: the instance, and the payload-less event it
    emits just before [removeAllListeners]. *)
Record Destroyed := mkDestroyed {
  final : InfographicState;
  announced : list LifecycleEvent
}.

Section Destroy.
(** [===] on nodes *)
Context `{node_eq : EqDecision Node}.

(** [node.remove()]: the node leaves the children of its parent. *)
Definition removeNode (n : Node) (dom : gmap nat (list Node))
    : gmap nat (list Node) :=
  (λ ch, List.filter (λ m, negb (bool_decide (m = n))) ch) <$> dom.

(** [destroy()].  [this.editor] is destroyed but the field keeps its
    value. *)
Definition destroyInfographic (st : InfographicState) : Destroyed :=
  let destroyedEditor :=
    match editor st with
    | Some ed => [EditorDestroyed ed]
    | None => []
    end in
  let dom :=
    match node st with
    | Some n => removeNode n (hostChildren st)
    | None => hostChildren st
    end in
  mkDestroyed
    (mkInfographic false None (editor st) (initialOptions st) (options st)
       (parsedOptions st) [] dom (outputs st ++ destroyedEditor))
    [destroyed].

End Destroy.

Section Exporting.
(** [ExportOptions], the test [options?.type === 'svg'], and the two
    exporters of module [exporter] with whatever they resolve to. *)
Variable ExportOptions : Type.
Variable Exported : Type.
Variable isSvgExport : ExportOptions -> bool.
Variable exportToSVGString : Node -> option ExportOptions -> Exported.
Variable exportToPNGString : Node -> option ExportOptions -> Exported.

(** [toDataURL(options)]: [inl] is the message of the error it throws. *)
Definition toDataURL (st : InfographicState) (exportOptions : option ExportOptions)
    : string + Exported :=
  match node st with
  | None => inl "Infographic is not rendered yet."
  | Some n =>
    if default false (isSvgExport <$> exportOptions)
    then inr (exportToSVGString n exportOptions)
    else inr (exportToPNGString n exportOptions)
  end.

End Exporting.

End WithImports.

End InfographicLifecycle.

(** ** Runs of the edit bar: vocabulary *)

Module EditBarRuns.
Import EditBar.

Section WithExternals.
Context `{ext : Externals}.

(** The handler of the plugin that answers an event. *)
Definition handle (options : option EditBarOptions) (dom : Dom)
    (st : State) (ev : Event) : State :=
  match ev with
  | SelectionChange next => handleSelectionChanged options dom st next
  | GeometryChange target => handleGeometryChanged dom st target
  | HistoryChange => handleHistoryChanged dom st
  end.

(** The selection announced by the last [selection:change] of a run that
    starts from [current]. *)
Definition lastSelection (current : list Element) (events : list Event)
    : list Element :=
  fold_left
    (λ sel ev, match ev with SelectionChange next => next | _ => sel end)
    events current.

(** Subscriptions that are not among the three of [init]. *)
Definition foreignOnly (subs : list (EventName * Listener)) : Prop :=
  ∀ sub, sub ∈ subs -> sub ∉ ownSubscriptions.

End WithExternals.

End EditBarRuns.

(** ** More options to run the runtime on *)

Module RuntimeFixtureMore.
Import Infographic RuntimeFixture.

(** The imports of [RuntimeFixture], with a [parseSVG] that always
    fails. *)
Definition fx_imports_unparsable : Imports := {|
  Options := FxOptions;
  Parsed := FxOptions;
  SyntaxError := string;
  Node := string;
  SVGElement := nat;
  Value := string;
  parseSyntax := λ s, (mkFx (Some s) false None, [], []);
  cloneOptions := λ o, o;
  mergeOptions := fx_merge;
  parseOptions := λ o, o;
  DEFAULT_OPTIONS := mkFx None false None;
  isCompleteParsedInfographicOptions := λ p, bool_decide (is_Some (fx_template p));
  parsed_container := λ _, Some 0;
  editable := fx_editable;
  onChange := fx_callback;
  onSelectionChange := λ _, None;
  onHistoryChange := fx_callback;
  onGeometryChange := λ _, None;
  renderSVG := λ p, default EmptyString (fx_template p);
  parseSVG := λ _, None;
  renderer_render := λ _ template, template;
  newEditor := λ _ _, mkEditor false false 0
|}.

(** An instance whose template will not parse. *)
Definition fx_unparsable : InfographicState (imp := fx_imports_unparsable) :=
  construct (imp := fx_imports_unparsable)
    (Object (imp := fx_imports_unparsable) (mkFx (Some "list") true None)).

(** An editable instance that was constructed and not rendered yet. *)
Definition fx_fresh_input : OptionsInput :=
  Object (mkFx (Some "list") true (Some "cb")).

Definition fx_fresh : InfographicState := construct fx_fresh_input.

(** An instance that carries one bridge and an editor, and whose options
    have since become read-only. *)
Definition fx_readonly : InfographicState :=
  mkInfographic true (Some "list") (Some (mkEditor true false 1))
    (mkFx (Some "list") false (Some "cb")) (mkFx (Some "list") false (Some "cb"))
    (mkFx (Some "list") false (Some "cb")) bridgeSubscriptions
    {[ 0 := ["list"] ]} [].

End RuntimeFixtureMore.

(** * Theorems *)

Module PlacementIEEETheory.
Import PlacementIEEE.
Local Open Scope float_scope.

(** The order of binary64 numbers, from the specification of their
    comparisons. *)

Lemma SFcompare_antisym (a b : spec_float) :
  SFcompare b a = CompOpp <$> SFcompare a b.
Proof.
  destruct a as [s| s| |s m e], b as [s'| s'| |s' m' e']; cbn;
    try destruct s; try destruct s'; try reflexivity;
    rewrite (Z.compare_antisym e e'); destruct (e ?= e')%Z; cbn; try reflexivity;
    change (PosDef.Pos.compare_cont Eq m' m) with (Pos.compare_cont (CompOpp Eq) m' m);
    rewrite <- (Pos.compare_cont_antisym m m' Eq);
    destruct (Pos.compare_cont Eq m m'); reflexivity.
Qed.

Lemma SFcompare_refl (a : spec_float) :
  a <> S754_nan -> SFcompare a a = Some Eq.
Proof.
  destruct a as [s| s| |s m e]; cbn; try congruence; intros _.
  - destruct s; reflexivity.
  - rewrite Z.compare_refl, Pos.compare_cont_refl. destruct s; reflexivity.
Qed.

Lemma SFcompare_None (a b : spec_float) :
  SFcompare a b = None -> a = S754_nan \/ b = S754_nan.
Proof. destruct a, b; cbn; try discriminate; auto. Qed.

Lemma is_nan_spec (x : float) : is_nan x = false <-> Prim2SF x <> S754_nan.
Proof.
  unfold is_nan. rewrite FloatAxioms.eqb_spec. unfold SFeqb. split.
  - intros H E. rewrite E in H. discriminate.
  - intros H. rewrite (SFcompare_refl _ H). reflexivity.
Qed.

Lemma compare_total (x y : float) :
  is_nan x = false -> is_nan y = false ->
  exists c, SFcompare (Prim2SF x) (Prim2SF y) = Some c.
Proof.
  rewrite !is_nan_spec. intros Hx Hy.
  destruct (SFcompare (Prim2SF x) (Prim2SF y)) as [c|] eqn:E; [eauto|].
  destruct (SFcompare_None _ _ E); contradiction.
Qed.

Lemma leb_not_nan (x y : float) :
  (x <=? y) = true -> is_nan x = false /\ is_nan y = false.
Proof.
  rewrite leb_spec, !is_nan_spec. unfold SFleb. intros H.
  split; intros E; rewrite E in H; [|destruct (Prim2SF x)]; discriminate.
Qed.

Lemma ltb_leb (x y : float) : (x <? y) = true -> (x <=? y) = true.
Proof.
  rewrite ltb_spec, leb_spec. unfold SFltb, SFleb.
  destruct (SFcompare _ _) as [[]|]; congruence.
Qed.

Lemma leb_refl (x : float) : is_nan x = false -> (x <=? x) = true.
Proof.
  rewrite is_nan_spec, leb_spec. unfold SFleb. intros H.
  rewrite (SFcompare_refl _ H). reflexivity.
Qed.

Lemma ltb_false_leb (x y : float) :
  is_nan x = false -> is_nan y = false -> (x <? y) = false -> (y <=? x) = true.
Proof.
  intros Hx Hy. destruct (compare_total x y Hx Hy) as [c Hc].
  rewrite ltb_spec, leb_spec. unfold SFltb, SFleb.
  rewrite (SFcompare_antisym (Prim2SF x)), Hc. destruct c; cbn; congruence.
Qed.

Lemma leb_ltb_false (x y : float) : (x <=? y) = true -> (y <? x) = false.
Proof.
  rewrite ltb_spec, leb_spec. unfold SFltb, SFleb.
  rewrite (SFcompare_antisym (Prim2SF x)).
  destruct (SFcompare _ _) as [[]|]; cbn; congruence.
Qed.

Lemma Math_max_cases (a b : float) :
  is_nan a = false -> is_nan b = false ->
  (Math_max a b = a \/ Math_max a b = b) /\
  (a <=? Math_max a b) = true /\ (b <=? Math_max a b) = true.
Proof.
  intros Ha Hb. unfold Math_max. rewrite Ha, Hb. cbn [orb].
  destruct (a <? b) eqn:E1.
  { split; [auto|]. split; [apply ltb_leb, E1|apply leb_refl, Hb]. }
  destruct (b <? a) eqn:E2.
  { split; [auto|]. split; [apply leb_refl, Ha|apply ltb_leb, E2]. }
  pose proof (ltb_false_leb a b Ha Hb E1). pose proof (ltb_false_leb b a Hb Ha E2).
  pose proof (leb_refl a Ha). pose proof (leb_refl b Hb).
  destruct (get_sign a); auto.
Qed.

Lemma Math_min_cases (a b : float) :
  is_nan a = false -> is_nan b = false ->
  (Math_min a b = a \/ Math_min a b = b) /\
  (Math_min a b <=? a) = true /\ (Math_min a b <=? b) = true.
Proof.
  intros Ha Hb. unfold Math_min. rewrite Ha, Hb. cbn [orb].
  destruct (a <? b) eqn:E1.
  { split; [auto|]. split; [apply leb_refl, Ha|apply ltb_leb, E1]. }
  destruct (b <? a) eqn:E2.
  { split; [auto|]. split; [apply ltb_leb, E2|apply leb_refl, Hb]. }
  pose proof (ltb_false_leb a b Ha Hb E1). pose proof (ltb_false_leb b a Hb Ha E2).
  pose proof (leb_refl a Ha). pose proof (leb_refl b Hb).
  destruct (get_sign a); auto.
Qed.

Lemma Math_max_not_nan (a b : float) :
  is_nan a = false -> is_nan b = false -> is_nan (Math_max a b) = false.
Proof.
  intros Ha Hb. destruct (Math_max_cases a b Ha Hb) as [[E|E] _]; rewrite E; assumption.
Qed.

(** Numbers are clamped into the extent from [lo] to [hi]. *)
Lemma clamp_within (v lo hi : float) :
  is_nan v = false -> is_nan lo = false -> is_nan hi = false ->
  spec_within lo hi (clamp v lo hi).
Proof.
  intros Hv Hlo Hhi. unfold spec_within, clamp.
  pose proof (Math_max_not_nan v lo Hv Hlo) as Hm.
  destruct (Math_max_cases v lo Hv Hlo) as (_ & _ & Hge).
  destruct (Math_min_cases _ hi Hm Hhi) as ([E|E] & _ & Hle).
  - split; [exact Hle|]. intros _. rewrite E. exact Hge.
  - split; [exact Hle|]. intros H. rewrite E. exact H.
Qed.

Lemma placeAbove_iff (doc : Document) (m : Measured) (B : DOMRect) :
  shouldPlaceAbove doc m B = true <->
  spec_placeAbove 8 (clientHeight doc) B (containerRect m).
Proof.
  unfold shouldPlaceAbove, spec_placeAbove, spec_spaceAbove, spec_spaceBelow,
    spec_anchorBottom, spec_anchorTop, offset, geq; cbn [fst snd].
  apply orb_true_iff.
Qed.


(** The sign of a difference of binary64 numbers, from the specification
    of the subtraction: the aligned mantissas are subtracted as integers
    and the result is rounded, which keeps the sign. *)

Section SubtractionSign.
Local Open Scope Z_scope.

Lemma shr_1_nonneg (r : shr_record) : 0 <= shr_m r -> 0 <= shr_m (shr_1 r).
Proof. destruct r as [[|[p|p|]|p] r s]; cbn; lia. Qed.

Lemma iter_shr_1_nonneg (n : positive) (r : shr_record) :
  0 <= shr_m r -> 0 <= shr_m (SpecFloat.iter_pos shr_1 n r).
Proof.
  revert r. induction n as [n IH|n IH|]; intros r Hr; cbn.
  - apply IH, IH, shr_1_nonneg, Hr.
  - apply IH, IH, Hr.
  - apply shr_1_nonneg, Hr.
Qed.

Lemma shr_fexp_nonneg (m e : Z) (l : location) :
  0 <= m -> 0 <= shr_m (shr_fexp prec emax m e l).1.
Proof.
  intros Hm. unfold shr_fexp, shr.
  assert (H0 : 0 <= shr_m (shr_record_of_loc m l)) by (destruct l as [|[]]; exact Hm).
  destruct (fexp prec emax (Zdigits2 m + e) - e); cbn [fst]; try exact H0.
  apply iter_shr_1_nonneg, H0.
Qed.

Lemma round_nearest_even_nonneg (m : Z) (l : location) :
  0 <= m -> 0 <= round_nearest_even m l.
Proof. intros Hm. destruct l as [|[]]; cbn; try destruct (Z.even m); lia. Qed.

(** Rounding a positive magnitude never yields a negative number or [NaN]. *)
Lemma binary_round_nonneg (m : positive) (e : Z) :
  SFleb (S754_zero false) (binary_round prec emax false m e) = true.
Proof.
  unfold binary_round.
  destruct (shl_align m e _) as [mz ez]. unfold binary_round_aux.
  pose proof (shr_fexp_nonneg (Z.pos mz) ez loc_Exact ltac:(lia)) as H1.
  destruct (shr_fexp prec emax (Z.pos mz) ez loc_Exact) as [mrs' e'].
  cbn [fst] in H1.
  pose proof (shr_fexp_nonneg _ e' loc_Exact
                (round_nearest_even_nonneg _ (loc_of_shr_record mrs') H1)) as H2.
  destruct (shr_fexp prec emax _ e' loc_Exact) as [mrs'' e''].
  cbn [fst] in H2.
  destruct (shr_m mrs'') as [|p|p]; [reflexivity| |lia].
  destruct (e'' <=? emax - prec); reflexivity.
Qed.

Lemma binary_normalize_nonneg (d e : Z) :
  0 <= d -> SFleb (S754_zero false) (binary_normalize prec emax d e false) = true.
Proof.
  intros Hd. destruct d as [|p|p]; cbn; [reflexivity|apply binary_round_nonneg|lia].
Qed.

Lemma digits2_pos_bounds (m : positive) :
  Z.pos m < 2 ^ Z.pos (digits2_pos m) /\ 2 ^ Z.pos (digits2_pos m) <= 2 * Z.pos m.
Proof.
  induction m as [m IH|m IH|]; cbn [digits2_pos].
  - rewrite Pos2Z.inj_succ, Z.pow_succ_r by lia. lia.
  - rewrite Pos2Z.inj_succ, Z.pow_succ_r by lia. lia.
  - cbn. lia.
Qed.

Lemma shl_align_value (m : positive) (e e' : Z) :
  e' <= e -> Z.pos (shl_align m e e').1 = Z.pos m * 2 ^ (e - e').
Proof.
  intros He. unfold shl_align. destruct (e' - e) as [|p|p] eqn:E.
  - replace (e - e') with 0 by lia. cbn [fst]. lia.
  - lia.
  - cbn [fst]. change (Pos.iter xO m p) with (shift_pos p m).
    rewrite shift_pos_correct, Z.pow_pos_fold.
    replace (e - e') with (Z.pos p) by lia. lia.
Qed.

(** The magnitudes of two binary64 numbers in canonical form compare as
    their exponents and mantissas do. *)
Lemma magnitude_le (m1 m2 : positive) (e1 e2 : Z) :
  bounded prec emax m1 e1 = true -> bounded prec emax m2 e2 = true ->
  match e1 ?= e2 with
  | Eq => Pos.compare_cont Eq m1 m2
  | Lt => Lt
  | Gt => Gt
  end <> Gt ->
  Z.pos (shl_align m1 e1 (Z.min e1 e2)).1 <= Z.pos (shl_align m2 e2 (Z.min e1 e2)).1.
Proof.
  unfold bounded, canonical_mantissa, fexp, SpecFloat.emin, prec, emax.
  intros [H1 _]%andb_prop [H2 _]%andb_prop Hc.
  apply Z.eqb_eq in H1, H2.
  rewrite !shl_align_value by lia.
  pose proof (digits2_pos_bounds m1) as [Hu1 _].
  pose proof (digits2_pos_bounds m2) as [_ Hl2].
  destruct (e1 ?= e2) eqn:E.
  - apply Z.compare_eq in E. subst e2.
    change (Pos.compare_cont Eq m1 m2) with (m1 ?= m2)%positive in Hc.
    assert (m1 <= m2)%positive by exact Hc.
    rewrite Z.min_id, Z.sub_diag. change (2 ^ 0) with 1. lia.
  - change (e1 < e2) in E.
    rewrite Z.min_l by lia. rewrite Z.sub_diag.
    assert (Hd2 : Z.pos (digits2_pos m2) = 53) by lia.
    assert (Hd1 : Z.pos (digits2_pos m1) <= 53) by lia.
    rewrite Hd2 in Hl2.
    assert (Z.pos m1 < 2 ^ 53).
    { eapply Z.lt_le_trans; [exact Hu1|]. apply Z.pow_le_mono_r; lia. }
    assert (2 ^ 1 <= 2 ^ (e2 - e1)) by (apply Z.pow_le_mono_r; lia).
    change (2 ^ 1) with 2 in *. change (2 ^ 0) with 1. nia.
  - congruence.
Qed.

Lemma SFsub_nonneg (x y : spec_float) :
  valid_binary x = true -> valid_binary y = true ->
  SFleb y x = true ->
  (forall s, y <> S754_infinity s) ->
  SFleb (S754_zero false) (SFsub prec emax x y) = true.
Proof.
  intros Vx Vy Hle Hfin. unfold SFleb in Hle.
  destruct y as [sy|sy| |sy my ey]; [| exfalso; eapply Hfin; reflexivity | discriminate |].
  - destruct x as [sx|sx| |sx mx ex]; cbn in *; try destruct sx; try destruct sy;
      try discriminate; reflexivity.
  - destruct x as [sx|sx| |sx mx ex]; cbn -[shl_align] in *.
    + destruct sy; [reflexivity|discriminate].
    + destruct sx; [discriminate|reflexivity].
    + discriminate.
    + apply binary_normalize_nonneg.
      destruct sx, sy; cbn [cond_Zopp]; try discriminate.
      * (* both negative *)
        assert (Hc : match ex ?= ey with
                     | Eq => Pos.compare_cont Eq mx my | Lt => Lt | Gt => Gt end <> Gt).
        { rewrite (Z.compare_antisym ey ex).
          destruct (ey ?= ex); cbn [CompOpp]; try discriminate.
          change (Pos.compare_cont Eq mx my)
            with (Pos.compare_cont (CompOpp Eq) mx my).
          rewrite <- (Pos.compare_cont_antisym my mx Eq).
          change (PosDef.Pos.compare_cont Eq my mx)
            with (Pos.compare_cont Eq my mx) in Hle.
          destruct (Pos.compare_cont Eq my mx); cbn in *; discriminate. }
        pose proof (magnitude_le mx my ex ey Vx Vy Hc). lia.
      * (* both positive *)
        assert (Hc : match ey ?= ex with
                     | Eq => Pos.compare_cont Eq my mx | Lt => Lt | Gt => Gt end <> Gt).
        { destruct (ey ?= ex); try discriminate.
          change (PosDef.Pos.compare_cont Eq my mx) with (Pos.compare_cont Eq my mx) in Hle.
          destruct (Pos.compare_cont Eq my mx); discriminate. }
        pose proof (magnitude_le my mx ey ex Vy Vx Hc) as H.
        rewrite (Z.min_comm ey ex) in H. lia.
Qed.

End SubtractionSign.

Lemma is_infinity_spec (a : float) :
  is_infinity a = false -> forall s, Prim2SF a <> S754_infinity s.
Proof.
  unfold is_infinity. rewrite FloatAxioms.eqb_spec, abs_spec.
  intros H s E. rewrite E in H. discriminate.
Qed.

(** In doubles too, subtracting a finite number from one that is not
    smaller leaves no negative number. *)
Lemma sub_nonneg (a b : float) :
  (a <=? b) = true -> is_infinity a = false -> (0 <=? b - a) = true.
Proof.
  rewrite !leb_spec, sub_spec. intros H Hfin.
  change (Prim2SF 0) with (S754_zero false).
  apply SFsub_nonneg;
    [apply Prim2SF_valid|apply Prim2SF_valid|exact H|apply is_infinity_spec, Hfin].
Qed.

Lemma placement_refines (gcb : list DOMRect -> DOMRect)
    (doc : Document) (m : Measured) (rects : list DOMRect) :
  rects <> [] ->
  let B := gcb rects in
  let T := containerRect m in
  let H := spec_hostSpace doc m in
  let above := shouldPlaceAbove doc m B in
  placeEditBar gcb doc m rects =
  Some (mkPosition (clamp (spec_x H B T) (host_xmin H) (host_xmax H))
                   (clamp (spec_y H 8 above B T) (host_ymin H) (host_ymax H))).
Proof.
  intros Hne. destruct rects as [|r rects']; [congruence|].
  unfold placeEditBar, spec_hostSpace.
  destruct (offsetParent m); cbn zeta; unfold spec_y;
    destruct (shouldPlaceAbove _ _ _); reflexivity.
Qed.

Lemma add_zero_pos (d : float) : (0 <? d) = true -> 0 + d = d.
Proof.
  rewrite ltb_spec. unfold SFltb. intros H.
  apply Prim2SF_inj. rewrite add_spec.
  change (Prim2SF 0) with (S754_zero false) in *.
  destruct (Prim2SF d) as [s| s| |s mx ex]; cbn in *; try discriminate; reflexivity.
Qed.

Lemma zero_leb_cases (d : float) :
  (0 <=? d) = true ->
  (0 <? d) = true \/ exists s, Prim2SF d = S754_zero s.
Proof.
  rewrite leb_spec, ltb_spec. unfold SFleb, SFltb.
  change (Prim2SF 0) with (S754_zero false).
  destruct (Prim2SF d) as [s| s| |s mx ex]; cbn; try discriminate; eauto;
    destruct s; try discriminate; auto.
Qed.

(** The upper end [0 + Math.max(d, 0)] of an extent that starts at 0 is
    [d] itself, up to the sign of zero, when [d] is not negative. *)
Lemma extent_from_zero (d : float) :
  (0 <=? d) = true ->
  is_nan (0 + Math_max d 0) = false /\
  (0 <=? 0 + Math_max d 0) = true /\
  forall x, (x <=? 0 + Math_max d 0) = (x <=? d).
Proof.
  intros Hd. destruct (leb_not_nan _ _ Hd) as [_ Hn].
  pose proof (leb_ltb_false _ _ Hd) as Hlt.
  unfold Math_max. rewrite Hn, Hlt. cbn [orb].
  change (is_nan 0) with false. cbv iota.
  destruct (zero_leb_cases d Hd) as [Hpos|[s Hs]].
  - rewrite Hpos, (add_zero_pos d Hpos). auto.
  - assert (E : Prim2SF (0 + (if 0 <? d then d else if get_sign d then 0 else d))
                = S754_zero false).
    { assert (E0 : (0 <? d) = false).
      { rewrite ltb_spec. unfold SFltb. rewrite Hs. reflexivity. }
      rewrite E0. destruct (get_sign d); [reflexivity|].
      rewrite add_spec, Hs. destruct s; reflexivity. }
    split; [|split].
    + apply is_nan_spec. rewrite E. discriminate.
    + rewrite leb_spec, E. reflexivity.
    + intros x. rewrite !leb_spec, E, Hs. destruct (Prim2SF x); reflexivity.
Qed.

(** Near a tie the doubles decide.  For a selection at [y = 44.1] of
    height [511.8] in a viewport 600 high the two spaces tie in decimal
    arithmetic ([44.1 - 8 = 600 - 555.9 - 8]); as doubles
    [spaceAbove < spaceBelow], and a toolbar 40 high goes below the
    selection, clamped to [top = 560]. *)
Example placement_near_tie :
  let B := mkRect 100 0x1.60ccccccccccdp+5 40 0x1.ffccccccccccdp+8 in
  let doc := mkDocument 1000 600 0 0 0 0 in
  let m := mkMeasured opBody (mkRect 0 0 60 40) in
  (spec_spaceAbove 8 B <? spec_spaceBelow 8 600 B) = true /\
  shouldPlaceAbove doc m B = false /\
  placeEditBar (fun _ => B) doc m [B] = Some (mkPosition 90 560).
Proof. cbn zeta. split; [|split]; reflexivity. Qed.

(** C1. For a non-empty selection with union box [B] and measured toolbar
    box [T], [placeEditBar] places the toolbar above the selection iff
    [spaceAbove = B.top - 8 >= T.height] or [spaceAbove >= spaceBelow =
    viewportHeight - B.bottom - 8], compared as doubles; the vertical
    position is [anchorTop.y - T.height - 8] when above and
    [anchorBottom.y + 8] otherwise, the horizontal one is
    [anchorTop.x - T.width/2], the anchors translated into the hosting
    coordinate space, and both clamped into its extent: when no [NaN] is
    involved the result is never beyond the upper end, and not before the
    lower end unless the ends are out of order.  For
    [B = {100, 50, 40, 20}], [T] 60 x 30 and viewport height 200 (no
    scrolling, toolbar hosted by the viewport) the toolbar goes above, at
    [y = 12], with [x] clamped into [[0, viewportWidth - 60]] for every
    viewport at least 60 wide. *)
Theorem placeEditBar_spec (gcb : list DOMRect -> DOMRect)
    (doc : Document) (m : Measured) (rects : list DOMRect) :
  rects <> [] ->
  (let B := gcb rects in
   let T := containerRect m in
   let H := spec_hostSpace doc m in
   let above := shouldPlaceAbove doc m B in
   exists pos,
     placeEditBar gcb doc m rects = Some pos /\
     (above = true <-> spec_placeAbove 8 (clientHeight doc) B T) /\
     style_left pos = clamp (spec_x H B T) (host_xmin H) (host_xmax H) /\
     style_top pos = clamp (spec_y H 8 above B T) (host_ymin H) (host_ymax H) /\
     (is_nan (spec_x H B T) = false ->
      is_nan (host_xmin H) = false -> is_nan (host_xmax H) = false ->
      spec_within (host_xmin H) (host_xmax H) (style_left pos)) /\
     (is_nan (spec_y H 8 above B T) = false ->
      is_nan (host_ymin H) = false -> is_nan (host_ymax H) = false ->
      spec_within (host_ymin H) (host_ymax H) (style_top pos))) /\
  (forall vw tx ty op,
     let doc := mkDocument vw 200 0 0 0 0 in
     let m := mkMeasured op (mkRect tx ty 60 30) in
     let B := mkRect 100 50 40 20 in
     gcb rects = B ->
     hostedByViewport m ->
     spec_spaceAbove 8 B = 42 /\
     shouldPlaceAbove doc m B = true /\
     exists pos,
       placeEditBar gcb doc m rects = Some pos /\
       style_top pos = 12 /\
       style_left pos = clamp 90 0 (0 + Math_max (vw - 60) 0) /\
       ((60 <=? vw) = true ->
        (0 <=? style_left pos) = true /\ (style_left pos <=? vw - 60) = true)).
Proof.
  intros Hne. split.
  - cbn zeta. rewrite (placement_refines gcb doc m rects Hne). cbn zeta.
    eexists. split; [reflexivity|]. cbn [style_left style_top].
    split; [apply placeAbove_iff|].
    split; [reflexivity|]. split; [reflexivity|].
    split; apply clamp_within.
  - intros vw tx ty op doc' m' B HB Hhost.
    split; [reflexivity|]. split; [reflexivity|].
    rewrite (placement_refines gcb doc' m' rects Hne). cbn zeta. rewrite HB.
    assert (HH : spec_hostSpace doc' m' =
                 mkHost (fun x => 0 + x) (fun y => 0 + y)
                        0 (0 + Math_max (vw - 60) 0) 0 (0 + Math_max (200 - 30) 0)).
    { unfold spec_hostSpace, hostedByViewport in *. cbn in *. destruct op; tauto. }
    rewrite HH. eexists. split; [reflexivity|]. cbn [style_left style_top].
    split; [reflexivity|]. split; [reflexivity|].
    intros Hvw. apply sub_nonneg in Hvw; [|reflexivity].
    destruct (extent_from_zero _ Hvw) as (Hn & H0 & Hle).
    destruct (clamp_within 90 0 (0 + Math_max (vw - 60) 0) eq_refl eq_refl Hn)
      as [Hhi Hlo].
    split; [exact (Hlo H0)|]. rewrite <- Hle. exact Hhi.
Qed.

(** The example run on the union-box model of [getCombinedBounds], with a
    viewport 300 wide: the toolbar lands at [(90, 12)], inside the extent
    from 0 to 240. *)
Lemma placeEditBar_spec_witness :
  exists pos,
    placeEditBar unionBounds (mkDocument 300 200 0 0 0 0)
      (mkMeasured opBody (mkRect 0 0 60 30)) [mkRect 100 50 40 20] = Some pos /\
    style_top pos = 12 /\ style_left pos = 90 /\
    spec_within 0 240 (style_left pos) /\
    (0 <=? style_left pos) = true /\ (style_left pos <=? 240) = true.
Proof.
  destruct (placeEditBar_spec unionBounds (mkDocument 300 200 0 0 0 0)
              (mkMeasured opBody (mkRect 0 0 60 30)) [mkRect 100 50 40 20])
    as [Hgen Hex]; [discriminate|].
  destruct (Hex 300 0 0 opBody eq_refl I) as (_ & _ & pos & Hp & Ht & Hl & Hin).
  destruct Hgen as (pos' & Hp' & _ & _ & _ & Hx & _).
  exists pos. split; [exact Hp|]. split; [exact Ht|].
  split; [rewrite Hl; reflexivity|].
  assert (E : pos' = pos) by congruence. subst pos'.
  split; [exact (Hx eq_refl eq_refl eq_refl)|].
  exact (Hin eq_refl).
Defined.

End PlacementIEEETheory.

Module EditBarTheory.
Import Placement EditBar.

Section Classification.
Context `{ext : Externals}.

Lemma probeItem_allObserved (item : Element) (f : Flags) :
  allObserved f = true -> probeItem item f = f.
Proof.
  destruct f as [[] [] []]; cbn; try discriminate; intros _.
  unfold probeItem; cbn. repeat case_match; reflexivity.
Qed.

Lemma probeAll_allObserved (sel : list Element) (f : Flags) :
  allObserved f = true -> probeAll sel f = f.
Proof.
  induction sel as [|item sel IH]; intros Hf; [reflexivity|].
  cbn. rewrite (probeItem_allObserved _ _ Hf). exact (IH Hf).
Qed.

(** The [break] does not change the flags. *)
Lemma probeLoop_flags (sel : list Element) (f : Flags) :
  (probeLoop sel f).1 = probeAll sel f.
Proof.
  revert f. induction sel as [|item sel IH]; intros f; [reflexivity|].
  cbn. destruct (allObserved (probeItem item f)) eqn:E.
  - cbn. symmetry. apply probeAll_allObserved, E.
  - apply IH.
Qed.

Lemma observed_present (c : Capability) (sel : list Element) :
  observed c sel = true <-> present c sel.
Proof.
  unfold observed, present. rewrite existsb_exists. split.
  - intros (item & Hin & Hc). exists item. split.
    + apply list_elem_of_In, Hin.
    + apply bool_decide_eq_true in Hc. exact Hc.
  - intros (item & Hin & Hc). exists item. split.
    + apply list_elem_of_In, Hin.
    + apply bool_decide_eq_true. exact Hc.
Qed.

Lemma probeItem_flag (c : Capability) (item : Element) (f : Flags) :
  flagOf c (probeItem item f) =
  flagOf c f || bool_decide (capabilityOf item = Some c).
Proof.
  unfold probeItem, capabilityOf.
  destruct (isEditableText item), (isIconElement item),
    (isGeometryElement item), c, f as [[] [] []]; reflexivity.
Qed.

Lemma probeAll_flag (c : Capability) (sel : list Element) (f : Flags) :
  flagOf c (probeAll sel f) = flagOf c f || observed c sel.
Proof.
  revert f. induction sel as [|item sel IH]; intros f; cbn.
  - now rewrite orb_false_r.
  - fold (probeAll sel (probeItem item f)).
    rewrite IH, probeItem_flag. now rewrite orb_assoc.
Qed.

Lemma classify_spec (f : Flags) :
  (classify f = text <->
     hasText f = true /\ hasIcon f = false /\ hasGeometry f = false) /\
  (classify f = icon <->
     hasText f = false /\ hasIcon f = true /\ hasGeometry f = false) /\
  (classify f = geometry <->
     hasText f = false /\ hasIcon f = false /\ hasGeometry f = true).
Proof. destruct f as [[] [] []]; cbn; intuition congruence. Qed.

(** The flags [getSelectionType] ends with say which capabilities are
    present. *)
Lemma getSelectionType_flags (sel : list Element) :
  let f := (probeLoop sel noFlags).1 in
  (hasText f = true <-> present capText sel) /\
  (hasIcon f = true <-> present capIcon sel) /\
  (hasGeometry f = true <-> present capGeometry sel).
Proof.
  cbn. rewrite probeLoop_flags.
  pose proof (probeAll_flag capText sel noFlags) as Ht.
  pose proof (probeAll_flag capIcon sel noFlags) as Hi.
  pose proof (probeAll_flag capGeometry sel noFlags) as Hg.
  cbn in Ht, Hi, Hg. rewrite Ht, Hi, Hg.
  repeat split; apply observed_present.
Qed.

Lemma not_true_false (b : bool) (P : Prop) :
  (b = true <-> P) -> (b = false <-> ¬ P).
Proof. destruct b; intuition congruence. Qed.

Lemma getSelectionType_single (sel : list Element) :
  (getSelectionType sel = text <->
     present capText sel /\ ¬ present capIcon sel /\ ¬ present capGeometry sel) /\
  (getSelectionType sel = icon <->
     ¬ present capText sel /\ present capIcon sel /\ ¬ present capGeometry sel) /\
  (getSelectionType sel = geometry <->
     ¬ present capText sel /\ ¬ present capIcon sel /\ present capGeometry sel).
Proof.
  unfold getSelectionType.
  destruct (getSelectionType_flags sel) as (Ht & Hi & Hg).
  destruct (classify_spec (probeLoop sel noFlags).1) as (Ct & Ci & Cg).
  rewrite Ct, Ci, Cg.
  rewrite <- Ht, <- Hi, <- Hg,
    <- (not_true_false _ _ (iff_refl (hasText _ = true))),
    <- (not_true_false _ _ (iff_refl (hasIcon _ = true))),
    <- (not_true_false _ _ (iff_refl (hasGeometry _ = true))).
  tauto.
Qed.

(** Where the loop stops: it probes a prefix of the selection, stops on
    the first item after which all three flags are set, and never looks
    at the rest. *)
Lemma probeLoop_break (sel : list Element) (f : Flags) :
  ∃ probed,
    sel = probed ++ (probeLoop sel f).2 /\
    (probeLoop sel f).1 = probeAll probed f /\
    ((probeLoop sel f).2 ≠ [] -> allObserved (probeLoop sel f).1 = true) /\
    (∀ p q, probed = p ++ q -> p ≠ [] -> q ≠ [] ->
       allObserved (probeAll p f) = false).
Proof.
  revert f. induction sel as [|item sel IH]; intros f.
  - exists []. cbn. repeat split; try congruence.
    intros p q Hpq Hp. destruct p; cbn in *; congruence.
  - cbn. destruct (allObserved (probeItem item f)) eqn:E.
    + exists [item]. cbn. repeat split; try congruence.
      intros p q Hpq Hp Hq.
      destruct p as [|x [|y p]]; cbn in Hpq; congruence.
    + destruct (IH (probeItem item f)) as (probed & Hs & Hf & Hb & Hmin).
      exists (item :: probed). cbn. split; [congruence|].
      split; [exact Hf|]. split; [exact Hb|].
      intros p q Hpq Hp Hq.
      destruct p as [|x p]; [congruence|].
      cbn in Hpq. injection Hpq as <- Hpq.
      destruct p as [|y p].
      * exact E.
      * apply (Hmin (y :: p) q Hpq); congruence.
Qed.

(** With probes that exclude each other on every selected element, a
    capability is present exactly when some element answers its probe. *)
Lemma present_exclusive (sel : list Element) :
  (∀ item, item ∈ sel ->
     (isEditableText item && isIconElement item = false) /\
     (isEditableText item && isGeometryElement item = false) /\
     (isIconElement item && isGeometryElement item = false)) ->
  (present capText sel <-> ∃ item, item ∈ sel /\ isEditableText item = true) /\
  (present capIcon sel <-> ∃ item, item ∈ sel /\ isIconElement item = true) /\
  (present capGeometry sel <-> ∃ item, item ∈ sel /\ isGeometryElement item = true).
Proof.
  intros Hex. unfold present, capabilityOf.
  repeat split; intros (item & Hin & H); exists item; (split; [exact Hin|]);
    destruct (Hex item Hin) as (H1 & H2 & H3);
    destruct (isEditableText item), (isIconElement item),
      (isGeometryElement item); cbn in *; congruence.
Qed.

(** C2. [getSelectionType] answers ['text'], ['icon'] or ['geometry']
    exactly when that capability is the only one present in the selection,
    and ['mixed'] otherwise; an element counts for the first of
    editable-text, icon, geometry that its probes report.  The loop stops
    probing once all three flags are set.  A single editable text is
    ['text']; an editable text with an icon is ['mixed']. *)
Theorem getSelectionType_spec (sel : list Element) :
  ((getSelectionType sel = text <->
      present capText sel /\ ¬ present capIcon sel /\ ¬ present capGeometry sel) /\
   (getSelectionType sel = icon <->
      ¬ present capText sel /\ present capIcon sel /\ ¬ present capGeometry sel) /\
   (getSelectionType sel = geometry <->
      ¬ present capText sel /\ ¬ present capIcon sel /\ present capGeometry sel) /\
   (getSelectionType sel = mixed <->
      ¬ (present capText sel /\ ¬ present capIcon sel /\ ¬ present capGeometry sel) /\
      ¬ (¬ present capText sel /\ present capIcon sel /\ ¬ present capGeometry sel) /\
      ¬ (¬ present capText sel /\ ¬ present capIcon sel /\ present capGeometry sel))) /\
  (∃ probed,
     sel = probed ++ (probeLoop sel noFlags).2 /\
     (probeLoop sel noFlags).1 = probeAll probed noFlags /\
     ((probeLoop sel noFlags).2 ≠ [] ->
        allObserved (probeLoop sel noFlags).1 = true) /\
     (∀ p q, probed = p ++ q -> q ≠ [] ->
        allObserved (probeAll p noFlags) = false)) /\
  (∀ textA, capabilityOf textA = Some capText ->
     getSelectionType [textA] = text) /\
  (∀ textA iconB,
     capabilityOf textA = Some capText -> capabilityOf iconB = Some capIcon ->
     getSelectionType [textA; iconB] = mixed).
Proof.
  destruct (getSelectionType_single sel) as (Ht & Hi & Hg).
  split; [|split; [|split]].
  - split; [exact Ht|]. split; [exact Hi|]. split; [exact Hg|].
    rewrite <- Ht, <- Hi, <- Hg.
    destruct (getSelectionType sel); intuition congruence.
  - destruct (probeLoop_break sel noFlags) as (probed & Hs & Hf & Hb & Hmin).
    exists probed. split; [exact Hs|]. split; [exact Hf|]. split; [exact Hb|].
    intros p q Hpq Hq. destruct p as [|x p]; [reflexivity|].
    apply (Hmin (x :: p) q Hpq); congruence.
  - intros textA HA. unfold getSelectionType, capabilityOf in *. cbn.
    unfold probeItem.
    destruct (isEditableText textA), (isIconElement textA),
      (isGeometryElement textA); cbn in *; congruence.
  - intros textA iconB HA HB. unfold getSelectionType, capabilityOf in *. cbn.
    unfold probeItem.
    destruct (isEditableText textA), (isIconElement textA),
      (isGeometryElement textA), (isEditableText iconB), (isIconElement iconB),
      (isGeometryElement iconB); cbn in *; congruence.
Qed.

End Classification.

Section Items.
Context `{ext : Externals}.

Lemma filter_truthy (items : list HTMLElement) : List.filter truthy items = items.
Proof. induction items as [|i items IH]; cbn; congruence. Qed.

(** The custom items are the non-null results of the factories, in the
    order of the factories. *)
Lemma renderCustomItems_omap (fs : list CustomEditItem) (ctx : EditBarContext) :
  renderCustomItems fs ctx = omap (λ factory, factory ctx) fs.
Proof.
  unfold renderCustomItems, filterNonNull.
  induction fs as [|f fs IH]; cbn; [reflexivity|].
  rewrite IH. reflexivity.
Qed.

Lemma getEditItems_order (options : option EditBarOptions)
    (sel : list Element) (context : option EditBarContext) :
  let ctx := default (buildContext sel) context in
  let cfg := options ≫= opt_items in
  let selectionType := getSelectionType sel in
  getEditItems options sel context =
    customItems (cfg ≫= cfg_prepend) ctx
    ++ (if default true (options ≫= opt_includeDefaults)
        then getDefaultItems sel selectionType else [])
    ++ customItems (cfg ≫= cfg_ofType selectionType) ctx
    ++ customItems (cfg ≫= cfg_append) ctx.
Proof.
  cbn zeta. unfold getEditItems, customItems. rewrite filter_truthy.
  destruct ((options ≫= opt_items) ≫= cfg_prepend),
    (default true (options ≫= opt_includeDefaults)),
    ((options ≫= opt_items) ≫= cfg_ofType (getSelectionType sel)),
    ((options ≫= opt_items) ≫= cfg_append);
    cbn; rewrite ?app_nil_r, <- ?app_assoc; reflexivity.
Qed.

Lemma cleanup_children (c : Container) :
  children (cleanupContainerItems c).1 = map (λ i, (cleanupReactEditBar i).1) (children c).
Proof. unfold cleanupContainerItems. cbn. now rewrite map_map. Qed.

Lemma renderItems_content (dom : Dom) (st : State) (c : Container)
    (next : list Element) (items : list HTMLElement) :
  attachedContent (renderItems dom st c next items) = items /\
  isVisible (renderItems dom st c next items) = true.
Proof.
  unfold renderItems, attachedContent, isVisible, placeContainer. cbn.
  destruct (placeEditBar _ _ _ _); cbn; auto.
Qed.

Lemma hideIfPresent_hidden (st : State) (next : list Element) :
  isVisible (hideIfPresent st next) = false /\
  attachedContent (hideIfPresent st next) = attachedContent st.
Proof.
  unfold hideIfPresent, isVisible, attachedContent.
  destruct (container st); cbn; auto.
Qed.

Lemma length_eqb_0 {A} (l : list A) : (length l =? 0)%nat = bool_decide (l = []).
Proof. destruct l; reflexivity. Qed.

(** The renderer, when present, is all [handleSelectionChanged] looks at:
    the item configuration has no influence. *)
Lemma render_bypasses_items (options : option EditBarOptions) (dom : Dom)
    (st : State) (next : list Element) (r : EditBarRenderer)
    (cfg : option EditBarItemConfig) (incl : option bool) :
  options ≫= opt_render = Some r ->
  handleSelectionChanged (withItems options cfg incl) dom st next =
  handleSelectionChanged options dom st next.
Proof.
  destruct options as [o|]; cbn; [|discriminate]. intros Hr.
  unfold handleSelectionChanged. cbn. rewrite Hr. reflexivity.
Qed.

Lemma render_decides (options : option EditBarOptions) (dom : Dom)
    (st : State) (next : list Element) (r : EditBarRenderer) :
  options ≫= opt_render = Some r ->
  next ≠ [] ->
  accepts options next = true ->
  let st' := handleSelectionChanged options dom st next in
  match r (buildContext next) with
  | Some content => attachedContent st' = [content] /\ isVisible st' = true
  | None => isVisible st' = false /\ attachedContent st' = attachedContent st
  end.
Proof.
  intros Hr Hne Hacc. cbn zeta. unfold handleSelectionChanged, accepts in *.
  rewrite Hr.
  replace (match options ≫= opt_filter with
           | Some filter => negb (filter next) | None => false end) with false
    by (destruct (options ≫= opt_filter); [now rewrite Hacc|reflexivity]).
  rewrite length_eqb_0, bool_decide_eq_false_2 by exact Hne.
  destruct (r (buildContext next)).
  - apply renderItems_content.
  - apply hideIfPresent_hidden.
Qed.

Lemma items_shown (options : option EditBarOptions) (dom : Dom)
    (st : State) (next : list Element) :
  options ≫= opt_render = None ->
  next ≠ [] ->
  accepts options next = true ->
  let st' := handleSelectionChanged options dom st next in
  let items := getEditItems options next (Some (buildContext next)) in
  (items ≠ [] -> attachedContent st' = items /\ isVisible st' = true) /\
  (items = [] -> isVisible st' = false).
Proof.
  intros Hr Hne Hacc. cbn zeta. unfold handleSelectionChanged, accepts in *.
  rewrite Hr.
  replace (match options ≫= opt_filter with
           | Some filter => negb (filter next) | None => false end) with false
    by (destruct (options ≫= opt_filter); [now rewrite Hacc|reflexivity]).
  rewrite length_eqb_0, bool_decide_eq_false_2 by exact Hne.
  rewrite length_eqb_0. split.
  - intros Hi. rewrite bool_decide_eq_false_2 by exact Hi.
    apply renderItems_content.
  - intros Hi. rewrite bool_decide_eq_true_2 by exact Hi. reflexivity.
Qed.

(** C4. Without a full custom renderer the resolved item list is, in
    order: the prepended custom items, the default items of the classified
    type (left out when [includeDefaults] is false), the custom items of
    that type, the appended custom items; this list is what a non-empty,
    accepted selection puts in the toolbar.  With a full custom renderer
    the item configuration is not consulted: the renderer's content is the
    toolbar's only child, and [null] hides the toolbar. *)
Theorem item_resolution (options : option EditBarOptions) (dom : Dom)
    (st : State) (next : list Element) :
  let st' := handleSelectionChanged options dom st next in
  let selectionType := getSelectionType next in
  let cfg := options ≫= opt_items in
  (∀ context,
     let ctx := default (buildContext next) context in
     getEditItems options next context =
       customItems (cfg ≫= cfg_prepend) ctx
       ++ (if default true (options ≫= opt_includeDefaults)
           then getDefaultItems next selectionType else [])
       ++ customItems (cfg ≫= cfg_ofType selectionType) ctx
       ++ customItems (cfg ≫= cfg_append) ctx) /\
  (options ≫= opt_render = None -> next ≠ [] -> accepts options next = true ->
     let items := getEditItems options next (Some (buildContext next)) in
     (items ≠ [] -> attachedContent st' = items /\ isVisible st' = true) /\
     (items = [] -> isVisible st' = false)) /\
  (∀ r, options ≫= opt_render = Some r ->
     (∀ cfg' incl',
        handleSelectionChanged (withItems options cfg' incl') dom st next = st') /\
     (next ≠ [] -> accepts options next = true ->
        match r (buildContext next) with
        | Some content => attachedContent st' = [content] /\ isVisible st' = true
        | None => isVisible st' = false /\ attachedContent st' = attachedContent st
        end)).
Proof.
  cbn zeta. split; [|split].
  - intros context. apply getEditItems_order.
  - intros Hr Hne Hacc. apply items_shown; assumption.
  - intros r Hr. split.
    + intros cfg' incl'. apply render_bypasses_items with r, Hr.
    + intros Hne Hacc. apply render_decides; assumption.
Qed.

End Items.

Section Machine.
Context `{ext : Externals}.

Lemma cleanup_roots (c : Container) :
  (cleanupContainerItems c).2 = pendingRoots (children c).
Proof.
  unfold cleanupContainerItems, pendingRoots. cbn.
  induction (children c) as [|i items IH]; [reflexivity|].
  cbn. rewrite IH. unfold cleanupReactEditBar.
  destruct (editBarCleanup i); reflexivity.
Qed.

(** After a cleanup no child keeps its hook. *)
Lemma cleanup_leaves_no_hook (c : Container) :
  pendingRoots (children (cleanupContainerItems c).1) = [].
Proof.
  rewrite cleanup_children. unfold pendingRoots.
  induction (children c) as [|i items IH]; [reflexivity|].
  cbn. unfold cleanupReactEditBar at 1.
  destruct (editBarCleanup i) eqn:E; cbn; rewrite ?E; exact IH.
Qed.

Lemma renderItems_effects (dom : Dom) (st : State) (c : Container)
    (next : list Element) (items : list HTMLElement) :
  effects (renderItems dom st c next items) =
  effects st ++ map eUnmount (pendingRoots (children c))
    ++ [eSetItems items; ePlace; eShow].
Proof.
  unfold renderItems.
  pose proof (cleanup_roots c) as Hr.
  destruct (cleanupContainerItems c) as [c' roots]. cbn in *. now subst.
Qed.

Lemma getOrCreateEditBar_children (st : State) :
  children (getOrCreateEditBar st) = attachedContent st.
Proof. unfold getOrCreateEditBar, attachedContent. destruct (container st); reflexivity. Qed.

Lemma hideIfPresent_effects (st : State) (next : list Element) :
  effects (hideIfPresent st next) = effects st ∨
  effects (hideIfPresent st next) = effects st ++ [eHide].
Proof. unfold hideIfPresent. destruct (container st); cbn; auto. Qed.

(** C6 (amended). A selection change either renders, or hides.  When it
    renders, the hook of every child attached so far is run (its React
    root unmounted) before the new items are attached, and the toolbar is
    shown.  When it hides (empty selection, rejecting filter, renderer
    without content, no item), the attached content is left as it was and
    nothing is unmounted. *)
Theorem rerender_disposal (options : option EditBarOptions) (dom : Dom)
    (st : State) (next : list Element) :
  let st' := handleSelectionChanged options dom st next in
  (isVisible st' = true /\
   ∃ items,
     effects st' =
       effects st ++ map eUnmount (pendingRoots (attachedContent st))
         ++ [eSetItems items; ePlace; eShow] /\
     attachedContent st' = items) ∨
  (isVisible st' = false /\
   attachedContent st' = attachedContent st /\
   (effects st' = effects st ∨ effects st' = effects st ++ [eHide])).
Proof.
  cbn zeta.
  assert (Hhide : ∀ s,
    s = hideIfPresent st next ->
    isVisible s = false /\ attachedContent s = attachedContent st /\
    (effects s = effects st ∨ effects s = effects st ++ [eHide])).
  { intros s ->. destruct (hideIfPresent_hidden st next) as [H1 H2].
    split; [exact H1|]. split; [exact H2|]. apply hideIfPresent_effects. }
  assert (Hshow : ∀ items,
    isVisible (renderItems dom st (getOrCreateEditBar st) next items) = true /\
    ∃ items',
      effects (renderItems dom st (getOrCreateEditBar st) next items) =
        effects st ++ map eUnmount (pendingRoots (attachedContent st))
          ++ [eSetItems items'; ePlace; eShow] /\
      attachedContent (renderItems dom st (getOrCreateEditBar st) next items) = items').
  { intros items. destruct (renderItems_content dom st (getOrCreateEditBar st) next items)
      as [Hc Hv].
    split; [exact Hv|]. exists items. split; [|exact Hc].
    rewrite renderItems_effects, getOrCreateEditBar_children. reflexivity. }
  unfold handleSelectionChanged.
  destruct (match options ≫= opt_filter with
            | Some filter => negb (filter next) | None => false end);
    [right; now apply Hhide|].
  destruct (length next =? 0)%nat; [right; now apply Hhide|].
  destruct (options ≫= opt_render) as [r|].
  - destruct (r (buildContext next)); [left; apply Hshow|right; now apply Hhide].
  - destruct (length (getEditItems options next (Some (buildContext next))) =? 0)%nat;
      [|left; apply Hshow].
    right. unfold isVisible, attachedContent, getOrCreateEditBar. cbn.
    destruct (container st); cbn; auto.
Qed.

(** When a selection change leaves the toolbar visible. *)
Lemma selection_change_visibility (options : option EditBarOptions)
    (dom : Dom) (st : State) (next : list Element) :
  isVisible (handleSelectionChanged options dom st next) = true <->
  next ≠ [] /\ accepts options next = true /\
  match options ≫= opt_render with
  | Some r => is_Some (r (buildContext next))
  | None => getEditItems options next (Some (buildContext next)) ≠ []
  end.
Proof.
  unfold handleSelectionChanged, accepts.
  destruct (options ≫= opt_filter) as [f|];
    [destruct (f next); cbn [negb]|].
  2: { destruct (hideIfPresent_hidden st next) as [-> _]. intuition congruence. }
  all: rewrite length_eqb_0; case_bool_decide as Hn;
    [destruct (hideIfPresent_hidden st next) as [-> _]; intuition congruence|].
  all: destruct (options ≫= opt_render) as [r|].
  all: try (destruct (r (buildContext next)) as [content|];
    [destruct (renderItems_content dom st (getOrCreateEditBar st) next [content]) as [_ ->];
     intuition eauto
    |destruct (hideIfPresent_hidden st next) as [-> _];
     split; [congruence|intros (_ & _ & [? ?]); congruence]]).
  all: rewrite length_eqb_0; case_bool_decide as Hi;
    [cbn; intuition congruence|].
  all: destruct (renderItems_content dom st (getOrCreateEditBar st) next
         (getEditItems options next (Some (buildContext next)))) as [_ ->];
    intuition congruence.
Qed.

(** A selection change hides the toolbar when the next selection is
    empty, the filter rejects it, or the renderer returns no content. *)
Lemma selection_change_hides (options : option EditBarOptions)
    (dom : Dom) (st : State) (next : list Element) :
  next = [] ∨ accepts options next = false ∨
  (∃ r, options ≫= opt_render = Some r /\ r (buildContext next) = None) ->
  isVisible (handleSelectionChanged options dom st next) = false.
Proof.
  intros H. apply not_true_is_false. rewrite selection_change_visibility.
  intros (Hne & Hacc & Hr).
  destruct H as [H|[H|(r & Hopt & Hnone)]]; [congruence|congruence|].
  rewrite Hopt, Hnone in Hr. destruct Hr as [? ?]. discriminate.
Qed.

Lemma removeContainer_listeners (st : State) :
  listeners (removeContainer st) = listeners st.
Proof. unfold removeContainer. destruct (container st); reflexivity. Qed.

Lemma off_listeners (event : EventName) (l : Listener) (st : State)
    (sub : EventName * Listener) :
  sub ∈ listeners (off event l st) <-> sub ∈ listeners st /\ sub ≠ (event, l).
Proof.
  unfold off. cbn.
  rewrite !list_elem_of_In, filter_In, negb_true_iff, bool_decide_eq_false.
  reflexivity.
Qed.

(** [destroy] drops exactly the plugin's own subscriptions and keeps
    everybody else's. *)
Lemma destroy_unsubscribes (st : State) (sub : EventName * Listener) :
  sub ∈ listeners (destroy st) <-> sub ∈ listeners st /\ sub ∉ ownSubscriptions.
Proof.
  unfold destroy, ownSubscriptions.
  rewrite removeContainer_listeners, !off_listeners, !not_elem_of_cons.
  pose proof (not_elem_of_nil sub). tauto.
Qed.

(** The only effect of [destroy] is the removal of the container: no
    cleanup hook is run. *)
Lemma destroy_effects (st : State) :
  effects (destroy st) = effects st ∨ effects (destroy st) = effects st ++ [eRemove].
Proof. unfold destroy, removeContainer. cbn. destruct (container st); cbn; auto. Qed.

End Machine.

(** The fixture's probes at work: [1; 3; 4; 2] sets all three flags after
    three items and leaves the fourth unprobed. *)
Lemma getSelectionType_spec_witness :
  getSelectionType (ext := Fixture.fixture) [1] = text /\
  getSelectionType (ext := Fixture.fixture) [1; 3] = mixed /\
  (probeLoop (ext := Fixture.fixture) [1; 3; 4; 2] noFlags).2 = [2] /\
  allObserved (probeLoop (ext := Fixture.fixture) [1; 3; 4; 2] noFlags).1 = true.
Proof.
  destruct (getSelectionType_spec (ext := Fixture.fixture) [1; 3; 4; 2])
    as (_ & (probed & _ & _ & Hb & _) & H1 & H2).
  split; [apply (H1 1); reflexivity|].
  split; [apply (H2 1 3); reflexivity|].
  split; [reflexivity|]. apply Hb. discriminate.
Defined.

Section Attributes.
Context `{ext : Externals}.

Lemma getCommonAttrs_lookup (attrs : list Attrs) (k : string) (v : AttrValue) :
  attrs ≠ [] ->
  (getCommonAttrs attrs !! k = Some v <-> ∀ a, a ∈ attrs -> a !! k = Some v).
Proof.
  destruct attrs as [|first rest]; [congruence|]. intros _.
  unfold getCommonAttrs. rewrite map_lookup_filter_Some. cbn.
  rewrite Forall_forall. split.
  - intros [Hf Hr] a Ha. apply elem_of_cons in Ha as [->|Ha]; auto.
  - intros H. split.
    + apply H. left.
    + intros a Ha. apply H. right. exact Ha.
Qed.

(** A key appears in the common record iff all records hold one
    identical value for it. *)
Lemma getCommonAttrs_key (attrs : list Attrs) (k : string) :
  attrs ≠ [] ->
  (is_Some (getCommonAttrs attrs !! k) <->
   ∃ v, ∀ a, a ∈ attrs -> a !! k = Some v).
Proof.
  intros Hne. unfold is_Some.
  split; intros [v Hv]; exists v; apply (getCommonAttrs_lookup _ _ _ Hne), Hv.
Qed.

Lemma getSelectionAttributes_text (sel : list Element) :
  (2 <= length sel)%nat -> getSelectionType sel = text ->
  getSelectionAttributes sel =
  getCommonAttrs (map (λ e, orEmpty (textAttributes e)) sel).
Proof.
  intros Hlen Ht. unfold getSelectionAttributes. rewrite Ht.
  destruct sel as [|a [|b sel]]; cbn in *; try lia. reflexivity.
Qed.

Lemma getSelectionAttributes_icon (sel : list Element) :
  (2 <= length sel)%nat -> getSelectionType sel = icon ->
  getSelectionAttributes sel = getCommonAttrs (map getIconAttrs sel).
Proof.
  intros Hlen Ht. unfold getSelectionAttributes. rewrite Ht.
  destruct sel as [|a [|b sel]]; cbn in *; try lia. reflexivity.
Qed.

Lemma getSelectionAttributes_other (sel : list Element) :
  getSelectionType sel = geometry ∨ getSelectionType sel = mixed ->
  getSelectionAttributes sel = ∅.
Proof.
  intros Ht. unfold getSelectionAttributes.
  destruct sel; [reflexivity|]. destruct Ht as [-> | ->]; reflexivity.
Qed.

Lemma shared_map {A} (f : A -> Attrs) (l : list A) (k : string) (v : AttrValue) :
  (∀ a, a ∈ map f l -> a !! k = Some v) <-> (∀ e, e ∈ l -> f e !! k = Some v).
Proof.
  split.
  - intros H e He. apply H. apply list_elem_of_fmap_2'  with e; auto.
  - intros H a Ha. apply list_elem_of_fmap in Ha as (e & -> & He). auto.
Qed.

(** C3 (amended). For a selection of two or more elements classified as
    ['text'] (resp. ['icon']), a key appears in the merged attributes iff
    every selected element has one identical value for it among its text
    (resp. icon) attributes, and the merged value is that value; for a
    selection classified as ['geometry'] the merged attributes are empty.
    Two texts with font sizes 14 and 16 merge without ['font-size']; two
    texts both coloured ['#000'] merge with [color: '#000']. *)
Theorem getSelectionAttributes_merged (sel : list Element) :
  (2 <= length sel)%nat ->
  (getSelectionType sel = text ->
     ∀ k,
       (∀ v, getSelectionAttributes sel !! k = Some v <->
             ∀ e, e ∈ sel -> orEmpty (textAttributes e) !! k = Some v) /\
       (is_Some (getSelectionAttributes sel !! k) <->
        ∃ v, ∀ e, e ∈ sel -> orEmpty (textAttributes e) !! k = Some v)) /\
  (getSelectionType sel = icon ->
     ∀ k,
       (∀ v, getSelectionAttributes sel !! k = Some v <->
             ∀ e, e ∈ sel -> getIconAttrs e !! k = Some v) /\
       (is_Some (getSelectionAttributes sel !! k) <->
        ∃ v, ∀ e, e ∈ sel -> getIconAttrs e !! k = Some v)) /\
  (getSelectionType sel = geometry -> getSelectionAttributes sel = ∅) /\
  (∀ a b, sel = [a; b] -> getSelectionType sel = text ->
     orEmpty (textAttributes a) !! "font-size" = Some (VNum 14) ->
     orEmpty (textAttributes b) !! "font-size" = Some (VNum 16) ->
     getSelectionAttributes sel !! "font-size" = None) /\
  (∀ a b, sel = [a; b] -> getSelectionType sel = text ->
     orEmpty (textAttributes a) !! "color" = Some (VStr "#000") ->
     orEmpty (textAttributes b) !! "color" = Some (VStr "#000") ->
     getSelectionAttributes sel !! "color" = Some (VStr "#000")).
Proof.
  intros Hlen.
  assert (Hne : ∀ {A} (f : Element -> A), map f sel ≠ []).
  { intros A f. destruct sel; cbn in *; [lia|congruence]. }
  assert (Htext : getSelectionType sel = text -> ∀ k v,
    getSelectionAttributes sel !! k = Some v <->
    ∀ e, e ∈ sel -> orEmpty (textAttributes e) !! k = Some v).
  { intros Ht k v. rewrite (getSelectionAttributes_text sel Hlen Ht).
    rewrite (getCommonAttrs_lookup _ _ _ (Hne _ _)). apply shared_map. }
  assert (Hicon : getSelectionType sel = icon -> ∀ k v,
    getSelectionAttributes sel !! k = Some v <->
    ∀ e, e ∈ sel -> getIconAttrs e !! k = Some v).
  { intros Ht k v. rewrite (getSelectionAttributes_icon sel Hlen Ht).
    rewrite (getCommonAttrs_lookup _ _ _ (Hne _ _)). apply shared_map. }
  split; [|split; [|split; [|split]]].
  - intros Ht k. split; [apply Htext, Ht|].
    unfold is_Some. split; intros [v Hv]; exists v; apply (Htext Ht), Hv.
  - intros Ht k. split; [apply Hicon, Ht|].
    unfold is_Some. split; intros [v Hv]; exists v; apply (Hicon Ht), Hv.
  - intros Ht. apply getSelectionAttributes_other. now left.
  - intros a b -> Ht Ha Hb.
    destruct (getSelectionAttributes [a; b] !! "font-size") as [v|] eqn:E;
      [|reflexivity].
    pose proof (proj1 (Htext Ht _ _) E) as H.
    pose proof (H a ltac:(repeat constructor)) as H1.
    pose proof (H b ltac:(repeat constructor)) as H2. congruence.
  - intros a b -> Ht Ha Hb. apply (Htext Ht).
    intros e He. apply elem_of_cons in He as [->|He]; [exact Ha|].
    apply list_elem_of_singleton in He as ->. exact Hb.
Qed.

End Attributes.

(** Texts 1 and 2 of the fixture: sizes 14 and 16, both coloured [#000]. *)
Lemma getSelectionAttributes_merged_witness :
  getSelectionAttributes (ext := Fixture.fixture) [1; 2] !! "font-size" = None /\
  getSelectionAttributes (ext := Fixture.fixture) [1; 2] !! "color"
    = Some (VStr "#000").
Proof.
  destruct (getSelectionAttributes_merged (ext := Fixture.fixture) [1; 2])
    as (_ & _ & _ & Hsize & Hcolor); [cbn; lia|].
  split.
  - apply (Hsize 1 2); reflexivity.
  - apply (Hcolor 1 2); reflexivity.
Defined.

(** Two rectangles that both carry [fill: '#000'] classify as
    ['geometry'], yet their merged attributes hold no key at all. *)
Lemma merged_geometry_counterexample :
  ¬ Fixture.mergedIffShared_everySingleType.
Proof.
  intros H.
  destruct (H [4; 5] "fill") as [_ Hback]; [cbn; lia|discriminate|].
  assert (Hs : is_Some (getSelectionAttributes (ext := Fixture.fixture) [4; 5] !! "fill")).
  { apply Hback. exists (VStr "#000"). intros e He.
    apply elem_of_cons in He as [->|He]; [reflexivity|].
    apply list_elem_of_singleton in He as ->. reflexivity. }
  destruct Hs as [v Hv]. discriminate Hv.
Qed.

(** Item resolution on text 1 of the fixture, and the React toolbar on
    the same selection. *)
Lemma item_resolution_witness :
  attachedContent
    (handleSelectionChanged Fixture.fx_options_items Fixture.fx_dom initial [1])
  = [mkItem "Bold" None; mkItem "FontColor" None; mkItem "FontSize" None;
     mkItem "FontAlign" None; mkItem "FontFamily" None;
     mkItem "Underline" None; mkItem "Help" None] /\
  attachedContent
    (handleSelectionChanged Fixture.fx_options_react Fixture.fx_dom initial [1])
  = [mkItem "div" (Some (mkRoot "CustomToolbar"))].
Proof.
  split.
  - destruct (item_resolution Fixture.fx_options_items Fixture.fx_dom initial [1])
      as (_ & Hitems & _).
    destruct Hitems as [Hshown _]; [reflexivity|discriminate|reflexivity|].
    destruct Hshown as [Hc _]; [discriminate|]. exact Hc.
  - destruct (item_resolution Fixture.fx_options_react Fixture.fx_dom initial [1])
      as (_ & _ & Hrender).
    destruct (Hrender (createReactEditBar (λ _, "CustomToolbar")) eq_refl)
      as [_ Hcontent].
    destruct Hcontent as [Hc _]; [discriminate|reflexivity|]. exact Hc.
Defined.

(** C5, at a failing run.  With a filter that accepts only texts: select
    text 1 (shown), select icon 3 (rejected, hidden), then a history
    change: the toolbar is visible again, for a selection the filter
    rejects, with the items of the earlier selection. *)
Theorem history_change_shows_rejected_selection :
  let st :=
    run Fixture.fx_options_filter Fixture.fx_dom (init initial)
      [SelectionChange [1]; SelectionChange [3]; HistoryChange] in
  selection st = [3] /\
  accepts Fixture.fx_options_filter (selection st) = false /\
  isVisible st = true /\
  attachedContent st =
    attachedContent
      (run Fixture.fx_options_filter Fixture.fx_dom (init initial)
         [SelectionChange [1]]).
Proof. vm_compute. repeat split. Qed.

(** The React toolbar is rendered for text 1, then the selection is
    emptied: the toolbar is hidden with the root still mounted in it. *)
Lemma hidden_with_live_root_counterexample :
  ¬ disposedWhenHidden Fixture.fx_options_react Fixture.fx_dom.
Proof.
  intros H.
  specialize (H [SelectionChange [1]; SelectionChange []] eq_refl).
  discriminate H.
Qed.

(** C8, at a failing run.  After [init], a React toolbar rendered for
    text 1 and [destroy]: the three subscriptions are gone and the
    container is detached, but the React root inside it was never
    unmounted. *)
Theorem destroy_leaves_root_mounted :
  let st :=
    destroy (run Fixture.fx_options_react Fixture.fx_dom (init initial)
               [SelectionChange [1]]) in
  listeners st = [] /\
  (attached <$> container st) = Some false /\
  pendingRoots (attachedContent st) = [mkRoot "CustomToolbar"] /\
  eUnmount (mkRoot "CustomToolbar") ∉ effects st.
Proof.
  vm_compute. repeat split.
  intros H. repeat (apply elem_of_cons in H as [H|H]; [discriminate|]).
  apply elem_of_nil in H. exact H.
Qed.

End EditBarTheory.

Module InfographicTheory.
Import Infographic.

Section Runtime.
Context `{imp : Imports}.

Lemma bridgeListener_output (l : BridgeListener) (st : InfographicState)
    (out : list Output) (ev : InternalEvent) :
  bridgeListener l (output st out) ev = bridgeListener l st ev.
Proof. reflexivity. Qed.

(** The outputs of all bridge closures subscribed for [ev], in order. *)
Lemma emit_fold (subs : list (InternalName * BridgeListener))
    (st : InfographicState) (ev : InternalEvent) (acc : list Output) :
  fold_left
    (λ st sub,
       if bool_decide (sub.1 = nameOf ev)
       then output st (bridgeListener sub.2 st ev) else st)
    subs (output st acc)
  = output st
      (acc ++ flat_map
         (λ sub, if bool_decide (sub.1 = nameOf ev)
                 then bridgeListener sub.2 st ev else []) subs).
Proof.
  revert acc. induction subs as [|sub subs IH]; intros acc; cbn.
  - now rewrite app_nil_r.
  - case_bool_decide.
    + rewrite bridgeListener_output.
      replace (output (output st acc) (bridgeListener sub.2 st ev))
        with (output st (acc ++ bridgeListener sub.2 st ev))
        by (unfold output; cbn; now rewrite app_assoc).
      rewrite IH. now rewrite app_assoc.
    + apply IH.
Qed.

Lemma output_nil (st : InfographicState) : output st [] = st.
Proof. destruct st. unfold output. cbn. now rewrite app_nil_r. Qed.

Lemma emit_outputs (st : InfographicState) (ev : InternalEvent) :
  emitter_emit st ev =
  output st
    (flat_map
       (λ sub, if bool_decide (sub.1 = nameOf ev)
               then bridgeListener sub.2 st ev else [])
       (subscriptions st)).
Proof.
  pose proof (emit_fold (subscriptions st) st ev []) as H.
  rewrite output_nil in H. exact H.
Qed.

(** One run of the bridge subscriptions answers an event with the output
    of the closure of the same name. *)
Lemma bridge_once (st : InfographicState) (ev : InternalEvent) :
  flat_map
    (λ sub, if bool_decide (sub.1 = nameOf ev)
            then bridgeListener sub.2 st ev else [])
    bridgeSubscriptions
  = bridgeListener (bridgeOf ev) st ev.
Proof. destruct ev; cbn; now rewrite ?app_nil_r. Qed.

Lemma emit_bridged (k : nat) (st : InfographicState) (ev : InternalEvent) :
  subscriptions st = bridgedTimes k ->
  emitter_emit st ev = output st (mjoin (replicate k (bridgeListener (bridgeOf ev) st ev))).
Proof.
  intros Hs. rewrite emit_outputs, Hs. f_equal. clear Hs.
  unfold bridgedTimes. induction k as [|k IH]; [reflexivity|].
  change (replicate (S k) bridgeSubscriptions)
    with (bridgeSubscriptions :: replicate k bridgeSubscriptions).
  change (replicate (S k) (bridgeListener (bridgeOf ev) st ev))
    with (bridgeListener (bridgeOf ev) st ev
          :: replicate k (bridgeListener (bridgeOf ev) st ev)).
  change (mjoin (bridgeSubscriptions :: replicate k bridgeSubscriptions))
    with (bridgeSubscriptions ++ mjoin (replicate k bridgeSubscriptions)).
  rewrite flat_map_app, bridge_once, IH. reflexivity.
Qed.

(** An emission only ever adds outputs. *)
Lemma emit_fields (st : InfographicState) (ev : InternalEvent) :
  let st' := emitter_emit st ev in
  rendered st' = rendered st /\ node st' = node st /\ editor st' = editor st /\
  initialOptions st' = initialOptions st /\ options st' = options st /\
  parsedOptions st' = parsedOptions st /\
  subscriptions st' = subscriptions st /\ hostChildren st' = hostChildren st.
Proof. cbn zeta. rewrite emit_outputs. cbn. tauto. Qed.

Lemma emit_bridged_outputs (k : nat) (st : InfographicState) (ev : InternalEvent) :
  subscriptions st = bridgedTimes k ->
  outputs (emitter_emit st ev) =
  outputs st ++ mjoin (replicate k (bridgeListener (bridgeOf ev) st ev)).
Proof. intros Hs. rewrite (emit_bridged k st ev Hs). reflexivity. Qed.

(** C7. While an editor is attached, every [history:change] emission adds
    to the outputs a public ['historyChange'] event (one per installed
    bridge, each followed by the call of [onHistoryChange] when that prop
    is set) that carries the internal action and the editor's [canUndo],
    [canRedo] and history size at that moment; [selection:change] and
    [selection:geometrychange] are published as ['selectionChange'] and
    ['geometryChange'], and [options:change] as ['change'] for the first
    change record it carries (nothing is published when it carries
    none).  An emission changes nothing else in the instance. *)
Theorem editor_event_bridge (st : InfographicState) (k : nat) (ed : IEditor) :
  subscriptions st = bridgedTimes (S k) ->
  editor st = Some ed ->
  (∀ action,
     let publicEvent :=
       historyChange
         (mkHistoryEvent action (canUndo ed) (canRedo ed) (getHistorySize ed)) in
     let once :=
       Emitted publicEvent
       :: callIfProvided (onHistoryChange (options st)) publicEvent in
     outputs (emitter_emit st (history_change action)) =
     outputs st ++ once ++ mjoin (replicate k once)) /\
  (∀ previous next added removed,
     let publicEvent := selectionChange (mkSelectionEvent next added removed) in
     let once :=
       Emitted publicEvent
       :: callIfProvided (onSelectionChange (options st)) publicEvent in
     outputs (emitter_emit st (selection_change previous next added removed)) =
     outputs st ++ once ++ mjoin (replicate k once)) /\
  (∀ target,
     let publicEvent := geometryChange (mkGeometryEvent target move) in
     let once :=
       Emitted publicEvent
       :: callIfProvided (onGeometryChange (options st)) publicEvent in
     outputs (emitter_emit st (selection_geometrychange target)) =
     outputs st ++ once ++ mjoin (replicate k once)) /\
  (∀ c rest,
     let publicEvent :=
       change (mkChangeEvent (change_op c) (change_path c) (change_value c)
                 None (options st)) in
     let once :=
       Emitted publicEvent
       :: callIfProvided (onChange (options st)) publicEvent in
     outputs (emitter_emit st (options_change (c :: rest))) =
     outputs st ++ once ++ mjoin (replicate k once)) /\
  outputs (emitter_emit st (options_change [])) = outputs st /\
  (∀ ev,
     let st' := emitter_emit st ev in
     rendered st' = rendered st /\ node st' = node st /\
     editor st' = editor st /\ initialOptions st' = initialOptions st /\
     options st' = options st /\ parsedOptions st' = parsedOptions st /\
     subscriptions st' = subscriptions st /\
     hostChildren st' = hostChildren st).
Proof.
  intros Hs He.
  assert (Hnil : ∀ n, mjoin (replicate n (@nil Output)) = []).
  { induction n as [|n IH]; [reflexivity|]. cbn. exact IH. }
  split; [|split; [|split; [|split; [|split]]]].
  - intros action. cbn zeta. rewrite (emit_bridged_outputs (S k) _ _ Hs). cbn.
    rewrite He. reflexivity.
  - intros previous next added removed. cbn zeta.
    rewrite (emit_bridged_outputs (S k) _ _ Hs). reflexivity.
  - intros target. cbn zeta. rewrite (emit_bridged_outputs (S k) _ _ Hs).
    reflexivity.
  - intros c rest. cbn zeta. rewrite (emit_bridged_outputs (S k) _ _ Hs).
    reflexivity.
  - rewrite (emit_bridged_outputs (S k) _ _ Hs). cbn. rewrite Hnil.
    apply app_nil_r.
  - intros ev. apply emit_fields.
Qed.

(** C9. An [options:change] emission with a non-empty [changes] array
    adds to the outputs a public ['change'] event, and a call of
    [onChange] when provided, carrying the operation, path and value of
    the first record and the current options (once per installed
    bridge); the other records play no part.  With an empty array nothing
    is emitted and nothing is called. *)
Theorem options_change_first_record (st : InfographicState) (k : nat) :
  subscriptions st = bridgedTimes (S k) ->
  (∀ c rest,
     let publicEvent :=
       change (mkChangeEvent (change_op c) (change_path c) (change_value c)
                 None (options st)) in
     let once :=
       Emitted publicEvent
       :: match onChange (options st) with
          | Some cb => [Called cb publicEvent]
          | None => []
          end in
     outputs (emitter_emit st (options_change (c :: rest))) =
       outputs st ++ once ++ mjoin (replicate k once) /\
     emitter_emit st (options_change (c :: rest)) =
       emitter_emit st (options_change [c])) /\
  outputs (emitter_emit st (options_change [])) = outputs st /\
  emitter_emit st (options_change []) = st.
Proof.
  intros Hs.
  assert (Hnil : ∀ n, mjoin (replicate n (@nil Output)) = []).
  { induction n as [|n IH]; [reflexivity|]. cbn. exact IH. }
  split; [|split].
  - intros c rest. cbn zeta. split.
    + rewrite (emit_bridged_outputs (S k) _ _ Hs). reflexivity.
    + rewrite !(emit_bridged (S k) _ _ Hs). reflexivity.
  - rewrite (emit_bridged_outputs (S k) _ _ Hs). cbn. rewrite Hnil.
    apply app_nil_r.
  - rewrite (emit_bridged (S k) _ _ Hs). cbn. rewrite Hnil. apply output_nil.
Qed.

(** [setOptions] touches the options and the outputs only. *)
Lemma setOptions_keeps (st : InfographicState) (input : OptionsInput) (mode : Mode) :
  let st' := setOptions st input mode in
  rendered st' = rendered st /\ node st' = node st /\ editor st' = editor st /\
  hostChildren st' = hostChildren st /\ subscriptions st' = subscriptions st /\
  initialOptions st' = initialOptions st.
Proof.
  cbn zeta. unfold setOptions.
  destruct (parseSyntaxOptions input) as [[parsed errors] warnings].
  destruct (length warnings =? 0)%nat, (length errors =? 0)%nat; cbn; tauto.
Qed.

Lemma performRender_incomplete (st : InfographicState) :
  isCompleteParsedInfographicOptions (parsedOptions st) = false ->
  performRender st =
  Returned (output st [Emitted (error (ErrorObject "Incomplete options"))]).
Proof. intros H. unfold performRender. now rewrite H. Qed.

(** C10. A [render()] or [update()] whose parsed options are incomplete
    emits ['error'] with [Error('Incomplete options')] and returns; the
    [rendered] flag, the node, the editor and the children of the host
    elements are as before the call. *)
Theorem incomplete_options_no_render (st : InfographicState) :
  (∀ input,
     let st1 :=
       match truthyInput input with
       | Some i => setOptions st i mode_replace
       | None => st
       end in
     isCompleteParsedInfographicOptions (parsedOptions st1) = false ->
     ∃ st',
       render st input = Returned st' /\
       outputs st' =
         outputs st1 ++ [Emitted (error (ErrorObject "Incomplete options"))] /\
       rendered st' = rendered st /\ node st' = node st /\
       editor st' = editor st /\ hostChildren st' = hostChildren st) /\
  (∀ input,
     let st1 := setOptions st input mode_merge in
     isCompleteParsedInfographicOptions (parsedOptions st1) = false ->
     ∃ st',
       update st input = Returned st' /\
       outputs st' =
         outputs st1 ++ [Emitted (error (ErrorObject "Incomplete options"))] /\
       rendered st' = rendered st /\ node st' = node st /\
       editor st' = editor st /\ hostChildren st' = hostChildren st).
Proof.
  split.
  - intros input st1 Hinc. unfold render. fold st1.
    rewrite (performRender_incomplete st1 Hinc). eexists. split; [reflexivity|].
    cbn. split; [reflexivity|]. subst st1.
    destruct (truthyInput input) as [i|]; [|tauto].
    destruct (setOptions_keeps st i mode_replace) as (? & ? & ? & ? & _). tauto.
  - intros input st1 Hinc. unfold update. fold st1.
    rewrite (performRender_incomplete st1 Hinc). eexists. split; [reflexivity|].
    cbn. split; [reflexivity|]. subst st1.
    destruct (setOptions_keeps st input mode_merge) as (? & ? & ? & ? & _). tauto.
Qed.

(** *** Live instances have the bridge installed *)

Lemma bridgedTimes_S (k : nat) :
  bridgedTimes k ++ bridgeSubscriptions = bridgedTimes (S k).
Proof.
  unfold bridgedTimes. induction k as [|k IH]; [reflexivity|].
  change (replicate (S k) bridgeSubscriptions)
    with (bridgeSubscriptions :: replicate k bridgeSubscriptions).
  change (mjoin (bridgeSubscriptions :: replicate k bridgeSubscriptions))
    with (bridgeSubscriptions ++ mjoin (replicate k bridgeSubscriptions)).
  rewrite <- app_assoc, IH. reflexivity.
Qed.

Lemma construct_bridged (input : OptionsInput) : bridged (construct input).
Proof.
  exists 0. unfold construct.
  destruct (parseSyntaxOptions input) as [[parsed errors] warnings].
  destruct (length warnings =? 0)%nat, (length errors =? 0)%nat; cbn;
    (split; [reflexivity|intros [? ?]; discriminate]).
Qed.

Lemma setOptions_bridged (st : InfographicState) (input : OptionsInput) (mode : Mode) :
  bridged st -> bridged (setOptions st input mode).
Proof.
  intros (k & Hs & He).
  destruct (setOptions_keeps st input mode) as (_ & _ & E & _ & S & _).
  exists k. rewrite S, E. auto.
Qed.

Lemma performRender_bridged (st : InfographicState) :
  bridged st -> bridged (stateOf (performRender st)).
Proof.
  intros (k & Hs & He). unfold performRender.
  destruct (isCompleteParsedInfographicOptions (parsedOptions st)); cbn.
  - destruct (compose (parsedOptions st)) as [template|]; cbn;
      [|exists k; auto].
    destruct (editable (options st)); cbn.
    + exists (S k). rewrite Hs, bridgedTimes_S. split; [reflexivity|lia].
    + exists k. split; [exact Hs|]. intros [? ?]; discriminate.
  - exists k. auto.
Qed.

Lemma emit_keeps_bridged (st : InfographicState) (ev : InternalEvent) :
  bridged st -> bridged (emitter_emit st ev).
Proof. intros H. rewrite emit_outputs. exact H. Qed.

End Runtime.

(** An undo on the editing fixture: one bridge, [onHistoryChange] set. *)
Lemma editor_event_bridge_witness :
  outputs (emitter_emit RuntimeFixture.fx_editing (history_change undo)) =
  outputs RuntimeFixture.fx_editing ++
    [Emitted (historyChange (mkHistoryEvent undo true false 1));
     Called "cb" (historyChange (mkHistoryEvent undo true false 1))].
Proof.
  destruct (editor_event_bridge RuntimeFixture.fx_editing 0 (mkEditor true false 1)
              eq_refl eq_refl) as (Hh & _).
  exact (Hh undo).
Defined.

(** Two change records in one emission: only the first is published. *)
Lemma options_change_first_record_witness :
  let c1 := mkChange op_update "data.items[0].label" "A" (Some "B") in
  let c2 := mkChange op_remove "data.items[1]" "B" None in
  let publicEvent :=
    change (mkChangeEvent op_update "data.items[0].label" "A" None
              (options RuntimeFixture.fx_editing)) in
  outputs (emitter_emit RuntimeFixture.fx_editing (options_change [c1; c2])) =
  outputs RuntimeFixture.fx_editing ++ [Emitted publicEvent; Called "cb" publicEvent].
Proof.
  intros c1 c2 publicEvent.
  destruct (options_change_first_record RuntimeFixture.fx_editing 0 eq_refl)
    as (Hfirst & _).
  destruct (Hfirst c1 [c2]) as [H _]. exact H.
Defined.

(** Rendering the instance that has no template. *)
Lemma incomplete_options_no_render_witness :
  ∃ st',
    render RuntimeFixture.fx_incomplete None = Returned st' /\
    outputs st' = [Emitted (error (ErrorObject "Incomplete options"))] /\
    rendered st' = false /\ node st' = None /\ editor st' = None /\
    hostChildren st' = ∅.
Proof.
  destruct (incomplete_options_no_render RuntimeFixture.fx_incomplete)
    as [Hrender _].
  exact (Hrender None eq_refl).
Defined.

End InfographicTheory.

(** * Further properties of the code *)

(** Exact arithmetic: the position as a clamped translate. *)

Module PlacementTheory.
Import Placement.
Local Open Scope Q_scope.

Lemma clamp_cases (v lo hi : Q) :
  lo <= hi ->
  (v <= lo /\ clamp v lo hi == lo) \/
  (lo <= v <= hi /\ clamp v lo hi == v) \/
  (hi <= v /\ clamp v lo hi == hi).
Proof.
  intros Hlh. unfold clamp.
  destruct (Q.max_spec v lo) as [[H1 E1]|[H1 E1]];
    destruct (Q.min_spec (Qmax v lo) hi) as [[H2 E2]|[H2 E2]];
    rewrite E1 in *; lra.
Qed.

Lemma clamp_between (v lo hi : Q) :
  lo <= hi -> lo <= clamp v lo hi <= hi.
Proof. intros H. destruct (clamp_cases v lo hi H) as [[? E]|[[? E]|[? E]]]; rewrite E; lra. Qed.

Lemma clamp_ext (v v' lo hi : Q) :
  v == v' -> clamp v lo hi == clamp v' lo hi.
Proof. intros E. unfold clamp. now rewrite E. Qed.

Lemma clamp_ext3 (v v' lo lo' hi hi' : Q) :
  v == v' -> lo == lo' -> hi == hi' -> clamp v lo hi == clamp v' lo' hi'.
Proof. intros E1 E2 E3. unfold clamp. now rewrite E1, E2, E3. Qed.

Lemma Qmax_0_r_ge (a : Q) : 0 <= Qmax a 0.
Proof. apply Q.le_max_r. Qed.

Lemma geq_true (a b : Q) : geq a b = true <-> b <= a.
Proof. unfold geq. apply Qle_bool_iff. Qed.

Lemma shouldPlaceAbove_iff (doc : Document) (m : Measured) (B : DOMRect) :
  shouldPlaceAbove doc m B = true <->
  spec_placeAbove 8 (clientHeight doc) B (containerRect m).
Proof.
  unfold shouldPlaceAbove, spec_placeAbove, spec_spaceAbove, spec_spaceBelow,
    spec_anchorBottom, spec_anchorTop, offset; cbn [fst snd].
  rewrite orb_true_iff, !geq_true. tauto.
Qed.

Lemma host_extent_ordered (doc : Document) (m : Measured) :
  let H := spec_hostSpace doc m in
  host_xmin H <= host_xmax H /\ host_ymin H <= host_ymax H.
Proof.
  unfold spec_hostSpace.
  destruct (offsetParent m); cbn;
    repeat match goal with |- context [Qmax ?a 0] =>
      let H := fresh in pose proof (Qmax_0_r_ge a) as H;
      generalize dependent (Qmax a 0); intros end; lra.
Qed.

(** The code computes the position of the specification: translate
    [spec_x], [spec_y] into the hosting space and clamp them. *)
Lemma placeEditBar_refines (gcb : list DOMRect -> DOMRect)
    (doc : Document) (m : Measured) (rects : list DOMRect) :
  rects <> [] ->
  let B := gcb rects in
  let T := containerRect m in
  let H := spec_hostSpace doc m in
  let above := shouldPlaceAbove doc m B in
  exists pos,
    placeEditBar gcb doc m rects = Some pos /\
    (above = true <-> spec_placeAbove 8 (clientHeight doc) B T) /\
    style_left pos == clamp (host_dx H + spec_x B T) (host_xmin H) (host_xmax H) /\
    style_top pos == clamp (host_dy H + spec_y 8 above B T) (host_ymin H) (host_ymax H) /\
    host_xmin H <= style_left pos <= host_xmax H /\
    host_ymin H <= style_top pos <= host_ymax H.
Proof.
  intros Hne B T H above.
  destruct rects as [|r rects']; [congruence|].
  pose proof (host_extent_ordered doc m) as [Hx Hy]. fold H in Hx, Hy.
  assert (Hpos : exists pos, placeEditBar gcb doc m (r :: rects') = Some pos /\
    style_left pos == clamp (host_dx H + spec_x B T) (host_xmin H) (host_xmax H) /\
    style_top pos == clamp (host_dy H + spec_y 8 above B T) (host_ymin H) (host_ymax H)).
  { unfold placeEditBar, H, spec_hostSpace, spec_x, spec_y, spec_anchorBottom,
      spec_anchorTop, rect_left, rect_top, offset.
    fold B. fold T. fold above.
    destruct (offsetParent m); cbn [fst snd host_dx host_dy host_xmin host_xmax
      host_ymin host_ymax]; eexists; (split; [reflexivity|]);
      cbn [style_left style_top]; (split; [apply clamp_ext; lra|]);
      apply clamp_ext; destruct above; lra. }
  destruct Hpos as (pos & Hp & Hl & Ht).
  exists pos. split; [exact Hp|]. split; [apply shouldPlaceAbove_iff|].
  split; [exact Hl|]. split; [exact Ht|].
  rewrite Hl, Ht. split; apply clamp_between; assumption.
Qed.

End PlacementTheory.

Module PlacementFacts.
Import Placement PlacementTheory.
Local Open Scope Q_scope.

(** The position [placeEditBar] writes when the toolbar is positioned
    against the viewport, with the scroll offsets named. *)
Lemma placeEditBar_viewport (gcb : list DOMRect -> DOMRect)
    (doc : Document) (m : Measured) (rects : list DOMRect) :
  rects <> [] ->
  hostedByViewport m ->
  let B := gcb rects in
  let T := containerRect m in
  let sx := jsOr (window_scrollX doc) (scrollLeft doc) in
  let sy := jsOr (window_scrollY doc) (scrollTop doc) in
  exists pos,
    placeEditBar gcb doc m rects = Some pos /\
    style_left pos ==
      clamp (sx + (rect_x B + rect_width B / 2 - rect_width T / 2)) sx
        (sx + Qmax (clientWidth doc - rect_width T) 0) /\
    style_top pos ==
      clamp (sy + (if shouldPlaceAbove doc m B
                   then rect_y B - rect_height T - 8
                   else rect_y B + rect_height B + 8)) sy
        (sy + Qmax (clientHeight doc - rect_height T) 0).
Proof.
  intros Hne Hhost B T sx sy.
  destruct (placeEditBar_refines gcb doc m rects Hne) as (pos & Hp & _ & Hl & Ht & _).
  exists pos. split; [exact Hp|].
  unfold spec_hostSpace, hostedByViewport in *.
  destruct (offsetParent m); try contradiction;
    cbn [host_dx host_dy host_xmin host_xmax host_ymin host_ymax] in Hl, Ht;
    (split; [rewrite Hl | rewrite Ht]); apply clamp_ext3; try reflexivity;
    unfold spec_x, spec_y, spec_anchorTop, spec_anchorBottom; cbn [fst snd];
    fold B; fold T; try reflexivity;
    destruct (shouldPlaceAbove doc m B); reflexivity.
Qed.

(** X1. A toolbar at least as wide (tall) as the viewport is pinned to the
    left (top) edge of the scrolled viewport, wherever the selection is. *)
Theorem toolbar_larger_than_viewport (gcb : list DOMRect -> DOMRect)
    (doc : Document) (m : Measured) (rects : list DOMRect) :
  rects <> [] ->
  hostedByViewport m ->
  exists pos,
    placeEditBar gcb doc m rects = Some pos /\
    (clientWidth doc <= rect_width (containerRect m) ->
       style_left pos == jsOr (window_scrollX doc) (scrollLeft doc)) /\
    (clientHeight doc <= rect_height (containerRect m) ->
       style_top pos == jsOr (window_scrollY doc) (scrollTop doc)).
Proof.
  intros Hne Hhost.
  destruct (placeEditBar_viewport gcb doc m rects Hne Hhost) as (pos & Hp & Hl & Ht).
  exists pos. split; [exact Hp|]. split; intros Hw.
  - rewrite Hl.
    assert (E : Qmax (clientWidth doc - rect_width (containerRect m)) 0 == 0)
      by (apply Q.max_r; lra).
    match goal with |- clamp ?v ?lo ?hi == _ =>
      assert (Hh : lo <= hi) by (rewrite E; lra);
      destruct (clamp_cases v lo hi Hh) as [[? Ec]|[[? Ec]|[? Ec]]];
        rewrite Ec; rewrite ?E in *; lra end.
  - rewrite Ht.
    assert (E : Qmax (clientHeight doc - rect_height (containerRect m)) 0 == 0)
      by (apply Q.max_r; lra).
    match goal with |- clamp ?v ?lo ?hi == _ =>
      assert (Hh : lo <= hi) by (rewrite E; lra);
      destruct (clamp_cases v lo hi Hh) as [[? Ec]|[[? Ec]|[? Ec]]];
        rewrite Ec; rewrite ?E in *; lra end.
Qed.

Lemma toolbar_larger_than_viewport_witness :
  exists pos,
    placeEditBar unionBounds (mkDocument 50 200 0 0 0 0)
      (mkMeasured opBody (mkRect 0 0 60 30)) [mkRect 100 50 40 20] = Some pos /\
    style_left pos == 0.
Proof.
  destruct (toolbar_larger_than_viewport unionBounds (mkDocument 50 200 0 0 0 0)
              (mkMeasured opBody (mkRect 0 0 60 30)) [mkRect 100 50 40 20])
    as (pos & Hp & Hl & _); [discriminate|exact I|].
  exists pos. split; [exact Hp|]. apply Hl. cbn. lra.
Defined.

Ltac clamp_solve :=
  match goal with
  | |- context [clamp ?v ?lo ?hi] =>
    let Hh := fresh in
    let Ec := fresh in
    assert (Hh : lo <= hi) by lra;
    destruct (clamp_cases v lo hi Hh) as [[? Ec]|[[? Ec]|[? Ec]]];
    rewrite Ec; lra
  end.

(** X3. Against the viewport the toolbar is centred on the selection
    whenever the centred toolbar lies inside the viewport; a toolbar that
    would stick out on the left is pinned to the left edge, one that
    would stick out on the right (and is not wider than the viewport) to
    the right edge. *)
Theorem toolbar_centred_or_pinned (gcb : list DOMRect -> DOMRect)
    (doc : Document) (m : Measured) (rects : list DOMRect) :
  rects <> [] ->
  hostedByViewport m ->
  let B := gcb rects in
  let T := containerRect m in
  let sx := jsOr (window_scrollX doc) (scrollLeft doc) in
  let centre := rect_x B + rect_width B / 2 in
  exists pos,
    placeEditBar gcb doc m rects = Some pos /\
    (0 <= centre - rect_width T / 2 ->
     centre + rect_width T / 2 <= clientWidth doc ->
       style_left pos + rect_width T / 2 == sx + centre) /\
    (centre - rect_width T / 2 <= 0 -> style_left pos == sx) /\
    (rect_width T <= clientWidth doc ->
     clientWidth doc <= centre + rect_width T / 2 ->
       style_left pos + rect_width T == sx + clientWidth doc).
Proof.
  cbn zeta. intros Hne Hhost.
  destruct (placeEditBar_viewport gcb doc m rects Hne Hhost) as (pos & Hp & Hl & _).
  exists pos. split; [exact Hp|].
  pose proof (Q.le_max_l (clientWidth doc - rect_width (containerRect m)) 0).
  pose proof (Q.le_max_r (clientWidth doc - rect_width (containerRect m)) 0).
  assert (Hhalf : rect_width (containerRect m) / 2 + rect_width (containerRect m) / 2
                  == rect_width (containerRect m)) by field.
  split; [|split].
  - intros H1 H2. rewrite Hl. clamp_solve.
  - intros H1. rewrite Hl. clamp_solve.
  - intros H1 H2. rewrite Hl.
    assert (E : Qmax (clientWidth doc - rect_width (containerRect m)) 0
                == clientWidth doc - rect_width (containerRect m))
      by (apply Q.max_l; lra).
    match goal with |- clamp ?v ?lo ?hi + _ == _ =>
      assert (Hh : lo <= hi) by lra;
      destruct (clamp_cases v lo hi Hh) as [[? Ec]|[[? Ec]|[? Ec]]];
        rewrite Ec; lra end.
Qed.

(** A selection centred at 120 in a 300 pixel viewport: the 60 pixel
    toolbar starts at 90. *)
Lemma toolbar_centred_or_pinned_witness :
  exists pos,
    placeEditBar unionBounds (mkDocument 300 200 0 0 0 0)
      (mkMeasured opBody (mkRect 0 0 60 30)) [mkRect 100 50 40 20] = Some pos /\
    style_left pos + 30 == 120.
Proof.
  destruct (toolbar_centred_or_pinned unionBounds (mkDocument 300 200 0 0 0 0)
              (mkMeasured opBody (mkRect 0 0 60 30)) [mkRect 100 50 40 20])
    as (pos & Hp & Hc & _); [discriminate|exact I|].
  exists pos. split; [exact Hp|].
  assert (E : style_left pos + 60 / 2 == 0 + (100 + 40 / 2)).
  { apply Hc; apply Qle_bool_imp_le; reflexivity. }
  assert (H30 : 30 == 60 / 2) by reflexivity.
  assert (H120 : 120 == 0 + (100 + 40 / 2)) by reflexivity.
  rewrite H30, H120. exact E.
Defined.

End PlacementFacts.

Module EditBarFacts.
Import Placement EditBar EditBarRuns EditBarTheory.

Section ClassificationFacts.
Context `{ext : Externals}.

(** The classification only depends on which capabilities are present. *)
Lemma getSelectionType_presence (sel sel' : list Element) :
  (∀ c, present c sel <-> present c sel') ->
  getSelectionType sel = getSelectionType sel'.
Proof.
  intros H.
  destruct (getSelectionType_single sel) as (Ht & Hi & Hg).
  destruct (getSelectionType_single sel') as (Ht' & Hi' & Hg').
  rewrite (H capText), (H capIcon), (H capGeometry) in Ht, Hi, Hg.
  rewrite <- Ht' in Ht. rewrite <- Hi' in Hi. rewrite <- Hg' in Hg.
  destruct (getSelectionType sel), (getSelectionType sel');
    try reflexivity;
    try (apply Ht; reflexivity); try (symmetry; apply Ht; reflexivity);
    try (apply Hi; reflexivity); try (symmetry; apply Hi; reflexivity);
    try (apply Hg; reflexivity); try (symmetry; apply Hg; reflexivity).
Qed.

(** X4. The classification of a selection does not depend on the order
    of its elements nor on repetitions: two selections with the same
    elements classify alike. *)
Theorem getSelectionType_same_elements (sel sel' : list Element) :
  (∀ e, e ∈ sel <-> e ∈ sel') ->
  getSelectionType sel = getSelectionType sel'.
Proof.
  intros H. apply getSelectionType_presence. intros c. unfold present.
  split; intros (item & Hin & Hc); exists item; (split; [apply H, Hin|exact Hc]).
Qed.

(** X5. Elements that are neither editable text, icon nor geometry are
    ignored by the classification; a selection made of such elements
    only (the empty one included) is ['mixed']. *)
Theorem getSelectionType_ignores_plain (sel1 sel2 : list Element) (e : Element) :
  capabilityOf e = None ->
  getSelectionType (sel1 ++ e :: sel2) = getSelectionType (sel1 ++ sel2) /\
  (∀ sel, (∀ x, x ∈ sel -> capabilityOf x = None) -> getSelectionType sel = mixed).
Proof.
  intros He. split.
  - apply getSelectionType_presence. intros c. unfold present.
    split; intros (item & Hin & Hc); exists item; (split; [|exact Hc]).
    + rewrite elem_of_app, elem_of_cons in Hin. rewrite elem_of_app.
      destruct Hin as [Hin|[->|Hin]]; [tauto|congruence|tauto].
    + rewrite elem_of_app in Hin. rewrite elem_of_app, elem_of_cons. tauto.
  - intros sel Hall.
    destruct (getSelectionType_single sel) as (Ht & Hi & Hg).
    assert (Hno : ∀ c, ¬ present c sel).
    { intros c (item & Hin & Hc). rewrite (Hall item Hin) in Hc. discriminate. }
    destruct (getSelectionType sel); try reflexivity.
    + destruct (proj1 Ht eq_refl) as [H _]. destruct (Hno _ H).
    + destruct (proj1 Hi eq_refl) as (_ & H & _). destruct (Hno _ H).
    + destruct (proj1 Hg eq_refl) as (_ & _ & H). destruct (Hno _ H).
Qed.

End ClassificationFacts.

Lemma getSelectionType_same_elements_witness :
  getSelectionType (ext := Fixture.fixture) [1; 3; 2] =
  getSelectionType (ext := Fixture.fixture) [3; 2; 1; 3].
Proof.
  apply getSelectionType_same_elements. intros e.
  rewrite !elem_of_cons, !elem_of_nil. tauto.
Defined.

(** Element 9 of the fixture has no capability. *)
Lemma getSelectionType_ignores_plain_witness :
  getSelectionType (ext := Fixture.fixture) ([1] ++ 9 :: [2]) =
  getSelectionType (ext := Fixture.fixture) ([1] ++ [2]).
Proof.
  apply (getSelectionType_ignores_plain (ext := Fixture.fixture) [1] [2] 9).
  reflexivity.
Defined.

Section DefaultItems.
Context `{ext : Externals}.

Lemma getSelectionType_one (e : Element) :
  getSelectionType [e] =
  match capabilityOf e with
  | Some capText => text
  | Some capIcon => icon
  | Some capGeometry => geometry
  | None => mixed
  end.
Proof.
  unfold getSelectionType, capabilityOf. cbn. unfold probeItem.
  destruct (isEditableText e), (isIconElement e), (isGeometryElement e);
    reflexivity.
Qed.

Lemma getEditItems_defaults (sel : list Element) (context : option EditBarContext) :
  getEditItems None sel context = getDefaultItems sel (getSelectionType sel).
Proof. rewrite getEditItems_order. cbn. now rewrite app_nil_r. Qed.

Lemma default_items_empty (sel : list Element) :
  getDefaultItems sel (getSelectionType sel) = [] <->
  sel = [] ∨
  ∃ e, sel = [e] /\ (capabilityOf e = Some capGeometry ∨ capabilityOf e = None).
Proof.
  destruct sel as [|e [|e' rest]].
  - split; [now left|reflexivity].
  - rewrite getSelectionType_one.
    destruct (capabilityOf e) as [[| |]|] eqn:E; cbn; split;
      try discriminate; try reflexivity;
      try (intros _; right; exists e; split; [reflexivity|tauto]);
      intros [H|(x & Hx & [H|H])]; try discriminate; congruence.
  - split.
    + destruct (getSelectionType (e :: e' :: rest)); cbn; discriminate.
    + intros [H|(x & Hx & _)]; discriminate.
Qed.

(** X6. Without options, a selection change shows the toolbar for every
    non-empty selection except a single shape and a single element that
    is neither editable text, icon nor shape: these have no default
    item. *)
Theorem default_toolbar_hidden_iff (dom : Dom) (st : State) (next : list Element) :
  isVisible (handleSelectionChanged None dom st next) = false <->
  next = [] ∨
  ∃ e, next = [e] /\ (capabilityOf e = Some capGeometry ∨ capabilityOf e = None).
Proof.
  rewrite <- not_true_iff_false, selection_change_visibility.
  cbn -[getEditItems buildContext].
  rewrite getEditItems_defaults, <- default_items_empty.
  destruct next as [|e rest].
  - split; [intros _; reflexivity|]. intros _ [H _]. congruence.
  - split.
    + intros H. destruct (decide (getDefaultItems (e :: rest)
                                   (getSelectionType (e :: rest)) = [])) as [E|E];
        [exact E|]. destruct H. repeat split; [discriminate|exact E].
    + intros E (_ & _ & H). contradiction.
Qed.

End DefaultItems.

Section Runs.
Context `{ext : Externals}.
Variable options : option EditBarOptions.
Variable dom : Dom.

(** *** What each handler keeps *)

Lemma hideIfPresent_fields (st : State) (next : list Element) :
  selection (hideIfPresent st next) = next /\
  listeners (hideIfPresent st next) = listeners st /\
  (container st = None -> container (hideIfPresent st next) = None) /\
  (∀ c, container st = Some c ->
     ∃ c', container (hideIfPresent st next) = Some c' /\ attached c' = attached c).
Proof.
  unfold hideIfPresent. destruct (container st) as [c|]; cbn.
  - repeat split; try discriminate. intros c0 [= <-]. eauto.
  - repeat split. discriminate.
Qed.

Lemma renderItems_fields (st : State) (c : Container)
    (next : list Element) (items : list HTMLElement) :
  selection (renderItems dom st c next items) = next /\
  listeners (renderItems dom st c next items) = listeners st /\
  ∃ c', container (renderItems dom st c next items) = Some c' /\
        attached c' = attached c.
Proof.
  unfold renderItems, placeContainer. cbn.
  destruct (placeEditBar _ _ _ _); cbn; eauto.
Qed.

Lemma handleSelectionChanged_fields (st : State) (next : list Element) :
  let st' := handleSelectionChanged options dom st next in
  selection st' = next /\
  listeners st' = listeners st /\
  (∀ c, container st = Some c ->
     ∃ c', container st' = Some c' /\ attached c' = attached c).
Proof.
  cbn zeta. unfold handleSelectionChanged.
  pose proof (hideIfPresent_fields st next) as (Hs & Hl & _ & Hc).
  assert (Hr : ∀ items,
    selection (renderItems dom st (getOrCreateEditBar st) next items) = next /\
    listeners (renderItems dom st (getOrCreateEditBar st) next items) = listeners st /\
    (∀ c, container st = Some c ->
       ∃ c', container (renderItems dom st (getOrCreateEditBar st) next items) = Some c' /\
             attached c' = attached c)).
  { intros items.
    destruct (renderItems_fields st (getOrCreateEditBar st) next items)
      as (H1 & H2 & c' & H3 & H4).
    split; [exact H1|]. split; [exact H2|]. intros c Hc0. exists c'.
    split; [exact H3|]. rewrite H4. unfold getOrCreateEditBar. now rewrite Hc0. }
  destruct (match options ≫= opt_filter with
            | Some filter => negb (filter next) | None => false end); [auto|].
  destruct (length next =? 0)%nat; [auto|].
  destruct (options ≫= opt_render) as [r|].
  - destruct (r (buildContext next)); [apply Hr|auto].
  - destruct (length (getEditItems options next (Some (buildContext next))) =? 0)%nat;
      [|apply Hr].
    cbn. repeat split. intros c Hc0. unfold getOrCreateEditBar. rewrite Hc0.
    cbn. eauto.
Qed.

Lemma replaceAndShow_fields (st : State) (c : Container) :
  container st = Some c ->
  let st' := replaceAndShow dom st c in
  selection st' = selection st /\ listeners st' = listeners st /\
  attachedContent st' = attachedContent st /\
  ∃ c', container st' = Some c' /\ attached c' = attached c.
Proof.
  intros Hc. cbn zeta. unfold replaceAndShow, placeContainer, attachedContent.
  rewrite Hc. destruct (placeEditBar _ _ _ _); cbn; eauto 6.
Qed.

Lemma reposition_cases (st st' : State) :
  (∃ target, st' = handleGeometryChanged dom st target) ∨
  st' = handleHistoryChanged dom st ->
  st' = st ∨
  ∃ c, container st = Some c /\ selection st ≠ [] /\ st' = replaceAndShow dom st c.
Proof.
  intros [[target ->] | ->].
  - unfold handleGeometryChanged. destruct (container st) as [c|]; [|now left].
    unfold notSelected. case_bool_decide as Hin; [now left|].
    right. exists c. repeat split. intros Hnil.
    assert (Hsel : target ∈ selection st)
      by (destruct (decide (target ∈ selection st)); [assumption|contradiction]).
    rewrite Hnil in Hsel. now apply elem_of_nil in Hsel.
  - unfold handleHistoryChanged. destruct (container st) as [c|]; [|now left].
    rewrite length_eqb_0. case_bool_decide as Hnil; [now left|].
    right. exists c. repeat split. exact Hnil.
Qed.

(** The geometry and history handlers move and show the container; they
    leave the selection, the content and the subscriptions alone and
    never create a container. *)
Lemma reposition_fields (st st' : State) :
  (∃ target, st' = handleGeometryChanged dom st target) ∨
  st' = handleHistoryChanged dom st ->
  selection st' = selection st /\ listeners st' = listeners st /\
  attachedContent st' = attachedContent st /\
  (container st = None -> container st' = None) /\
  (∀ c, container st = Some c ->
     ∃ c', container st' = Some c' /\ attached c' = attached c) /\
  (isVisible st' = true -> isVisible st = true ∨ selection st ≠ []).
Proof.
  intros H. destruct (reposition_cases st st' H) as [-> | (c & Hc & Hne & ->)].
  - repeat split; eauto.
  - destruct (replaceAndShow_fields st c Hc) as (H1 & H2 & H3 & c' & H4 & H5).
    split; [exact H1|]. split; [exact H2|]. split; [exact H3|].
    split; [congruence|]. split; [|auto].
    intros c0 Hc0. exists c'. split; [exact H4|congruence].
Qed.

(** *** From handlers to emissions and runs *)

(** A property kept by every call of a listener is kept by [emit]. *)
Lemma emit_keeps (P : State -> Prop) (ev : Event) (st : State) :
  (∀ l s, P s -> P (callListener options dom l ev s)) ->
  P st -> P (emit options dom st ev).
Proof.
  intros Hcall. unfold emit. generalize (listeners st) as subs.
  intros subs. revert st. induction subs as [|sub subs IH]; intros st HP; cbn.
  - exact HP.
  - apply IH. case_bool_decide; auto.
Qed.

Lemma run_keeps (P : State -> Prop) (events : list Event) (st : State) :
  (∀ ev l s, P s -> P (callListener options dom l ev s)) ->
  P st -> P (run options dom st events).
Proof.
  intros Hcall. unfold run. revert st.
  induction events as [|ev events IH]; intros st HP; cbn; [exact HP|].
  apply IH. apply emit_keeps; auto.
Qed.

(** A listener called with an event either does nothing or runs the
    handler of that event. *)
Lemma callListener_cases (l : Listener) (ev : Event) (s : State) :
  callListener options dom l ev s = s ∨
  callListener options dom l ev s = handle options dom s ev.
Proof. destruct l, ev; cbn; auto. Qed.

Lemma handle_listeners (s : State) (ev : Event) :
  listeners (handle options dom s ev) = listeners s.
Proof.
  destruct ev as [next|target|]; cbn.
  - apply handleSelectionChanged_fields.
  - apply (reposition_fields s). left. eauto.
  - apply (reposition_fields s). now right.
Qed.

(** X7. The toolbar is only ever visible while the plugin holds a
    non-empty selection: this is kept by every event, whatever the
    options and whoever else listens. *)
Theorem visible_selection_nonempty (events : list Event) (st : State) :
  (isVisible st = true -> selection st ≠ []) ->
  let st' := run options dom st events in
  isVisible st' = true -> selection st' ≠ [].
Proof.
  intros H. cbn zeta.
  apply (run_keeps (λ s, isVisible s = true -> selection s ≠ [])); [|exact H].
  clear. intros ev l s Hs.
  destruct (callListener_cases l ev s) as [-> | ->]; [exact Hs|].
  destruct ev as [next|target|]; cbn.
  - intros Hv. apply selection_change_visibility in Hv as (Hne & _).
    destruct (handleSelectionChanged_fields s next) as (-> & _). exact Hne.
  - destruct (reposition_fields s (handleGeometryChanged dom s target))
      as (-> & _ & _ & _ & _ & Hv); [left; eauto|]. intros V. destruct (Hv V); auto.
  - destruct (reposition_fields s (handleHistoryChanged dom s))
      as (-> & _ & _ & _ & _ & Hv); [now right|]. intros V. destruct (Hv V); auto.
Qed.

Lemma emit_reposition_selection (st : State) (ev : Event) :
  (∀ next, ev ≠ SelectionChange next) ->
  selection (emit options dom st ev) = selection st.
Proof.
  intros Hev.
  apply (emit_keeps (λ s, selection s = selection st)); [|reflexivity].
  intros l s Hs. rewrite <- Hs.
  destruct (callListener_cases l ev s) as [-> | ->]; [reflexivity|].
  destruct ev as [next|target|]; [destruct (Hev next eq_refl)| |]; cbn.
  - apply (reposition_fields s). left. eauto.
  - apply (reposition_fields s). now right.
Qed.

(** X8. [selection:geometrychange] and [history:change] never change the
    selection held by the plugin, the content of the toolbar or the
    subscriptions, and never create the container. *)
Theorem reposition_events_keep_content (st : State) (ev : Event) :
  (∀ next, ev ≠ SelectionChange next) ->
  let st' := emit options dom st ev in
  selection st' = selection st /\
  attachedContent st' = attachedContent st /\
  listeners st' = listeners st /\
  (container st = None -> container st' = None).
Proof.
  intros Hev. cbn zeta.
  apply (emit_keeps (λ s,
    selection s = selection st /\ attachedContent s = attachedContent st /\
    listeners s = listeners st /\ (container st = None -> container s = None)));
    [|auto].
  intros l s (H1 & H2 & H3 & H4).
  destruct (callListener_cases l ev s) as [-> | ->]; [auto|].
  destruct ev as [next|target|]; [destruct (Hev next eq_refl)| |]; cbn.
  - destruct (reposition_fields s (handleGeometryChanged dom s target))
      as (E1 & E2 & E3 & E4 & _); [left; eauto|].
    rewrite E1, E2, E3. repeat split; auto.
  - destruct (reposition_fields s (handleHistoryChanged dom s))
      as (E1 & E2 & E3 & E4 & _); [now right|].
    rewrite E1, E2, E3. repeat split; auto.
Qed.

(** X9. Once the container exists it is never dropped nor detached by
    any event: every later state holds a container that is attached iff
    this one was. *)
Theorem container_persists (events : list Event) (st : State) (c : Container) :
  container st = Some c ->
  ∃ c', container (run options dom st events) = Some c' /\
        attached c' = attached c.
Proof.
  intros Hc.
  apply (run_keeps (λ s, ∃ c', container s = Some c' /\ attached c' = attached c));
    [|eauto].
  clear. intros ev l s (c1 & Hc1 & Ha1).
  destruct (callListener_cases l ev s) as [-> | ->]; [eauto|].
  destruct ev as [next|target|]; cbn.
  - destruct (handleSelectionChanged_fields s next) as (_ & _ & H).
    destruct (H c1 Hc1) as (c2 & Hc2 & Ha2). exists c2. split; congruence.
  - destruct (reposition_fields s (handleGeometryChanged dom s target))
      as (_ & _ & _ & _ & H & _); [left; eauto|].
    destruct (H c1 Hc1) as (c2 & Hc2 & Ha2). exists c2. split; congruence.
  - destruct (reposition_fields s (handleHistoryChanged dom s))
      as (_ & _ & _ & _ & H & _); [now right|].
    destruct (H c1 Hc1) as (c2 & Hc2 & Ha2). exists c2. split; congruence.
Qed.

Lemma emit_listeners (st : State) (ev : Event) :
  listeners (emit options dom st ev) = listeners st.
Proof.
  apply (emit_keeps (λ s, listeners s = listeners st)); [|reflexivity].
  intros l s Hs. destruct (callListener_cases l ev s) as [-> | ->]; [exact Hs|].
  now rewrite handle_listeners.
Qed.

Lemma emit_selection_change (st : State) (next : list Element) :
  (ev_selection_change, this_handleSelectionChanged) ∈ listeners st ->
  selection (emit options dom st (SelectionChange next)) = next.
Proof.
  unfold emit. generalize (listeners st) as subs. intros subs.
  assert (Hset : ∀ subs s, selection s = next ->
    selection (fold_left
      (λ st sub, if bool_decide (sub.1 = eventName (SelectionChange next))
                 then callListener options dom sub.2 (SelectionChange next) st
                 else st) subs s) = next).
  { clear. induction subs as [|sub subs IH]; intros s Hs; cbn; [exact Hs|].
    apply IH. case_bool_decide; [|exact Hs].
    destruct (callListener_cases sub.2 (SelectionChange next) s) as [-> | ->];
      [exact Hs|]. apply handleSelectionChanged_fields. }
  revert st. induction subs as [|sub subs IH]; intros st Hin.
  - now apply elem_of_nil in Hin.
  - apply elem_of_cons in Hin as [<- | Hin]; cbn.
    + apply Hset. apply handleSelectionChanged_fields.
    + apply IH, Hin.
Qed.

(** X10. While [handleSelectionChanged] is subscribed, the selection held
    by the plugin is the one announced by the last [selection:change],
    whether or not the filter accepted it and whatever was rendered. *)
Theorem selection_tracks_last (events : list Event) (st : State) :
  (ev_selection_change, this_handleSelectionChanged) ∈ listeners st ->
  selection (run options dom st events) = lastSelection (selection st) events.
Proof.
  unfold run, lastSelection. revert st.
  induction events as [|ev events IH]; intros st Hin; [reflexivity|].
  cbn. rewrite IH by (rewrite emit_listeners; exact Hin). f_equal.
  destruct ev as [next|target|].
  - apply emit_selection_change, Hin.
  - apply emit_reposition_selection. discriminate.
  - apply emit_reposition_selection. discriminate.
Qed.

(** X11. After [destroy] the plugin is inert: no event changes its state
    any more. *)
Theorem inert_after_destroy (events : list Event) (st : State) :
  run options dom (destroy st) events = destroy st.
Proof.
  assert (Hemit : ∀ ev s, (∀ sub, sub ∈ listeners s -> sub ∉ ownSubscriptions) ->
            emit options dom s ev = s).
  { intros ev s. unfold emit. generalize (listeners s) as subs. intros subs.
    revert s. induction subs as [|sub subs IH]; intros s Hsubs; [reflexivity|].
    cbn. rewrite IH by (intros x Hx; apply Hsubs; now right).
    case_bool_decide as Hn; [|reflexivity].
    assert (Hown : sub ∉ ownSubscriptions) by (apply Hsubs; left).
    unfold ownSubscriptions in Hown. rewrite !not_elem_of_cons in Hown.
    destruct sub as [n l]. cbn in *. subst n.
    destruct l, ev; cbn; try reflexivity; exfalso; tauto. }
  unfold run. induction events as [|ev events IH]; [reflexivity|].
  cbn. rewrite Hemit; [exact IH|].
  intros sub Hsub. apply destroy_unsubscribes in Hsub. tauto.
Qed.

End Runs.

Section Lifecycle.
Context `{ext : Externals}.

Lemma filter_foreign (subs : list (EventName * Listener)) (P : EventName * Listener -> bool) :
  (∀ sub, sub ∈ subs -> P sub = true) -> List.filter P subs = subs.
Proof.
  induction subs as [|sub subs IH]; intros H; cbn; [reflexivity|].
  rewrite (H sub) by left. rewrite IH; [reflexivity|].
  intros x Hx. apply H. now right.
Qed.

(** X12. [init] followed by [destroy] gives the emitter back as it was:
    the subscriptions of other listeners are kept, in their order, and
    the three of the plugin are gone. *)
Theorem init_destroy_round_trip (st : State) :
  foreignOnly (listeners st) ->
  listeners (destroy (init st)) = listeners st.
Proof.
  intros Hf. unfold destroy. rewrite removeContainer_listeners.
  assert (Hkeep : ∀ own, own ∈ ownSubscriptions ->
    List.filter (λ s, negb (bool_decide (s = own))) (listeners st) = listeners st).
  { intros own Hown. apply filter_foreign. intros sub Hsub.
    apply negb_true_iff, bool_decide_eq_false. intros ->.
    exact (Hf _ Hsub Hown). }
  unfold off, init, on, ownSubscriptions in *. cbn [listeners container selection effects].
  rewrite !List.filter_app. cbn [List.filter].
  repeat (case_bool_decide; try discriminate; try congruence; cbn [negb app List.filter]).
  rewrite !app_nil_r.
  rewrite !Hkeep; [reflexivity|..]; rewrite !elem_of_cons; tauto.
Qed.

(** X13. A cleanup hook runs once: cleaning the container a second time
    unmounts nothing and changes nothing, and the element made by
    [createReactEditBar] gives up exactly the root it mounted. *)
Theorem cleanup_runs_once (c : Container)
    (Component : EditBarContext -> string) (context : EditBarContext) :
  cleanupContainerItems (cleanupContainerItems c).1 =
    ((cleanupContainerItems c).1, []) /\
  ∃ element,
    createReactEditBar Component context = Some element /\
    (cleanupReactEditBar element).2 = [mkRoot (Component context)] /\
    cleanupReactEditBar (cleanupReactEditBar element).1 =
      ((cleanupReactEditBar element).1, []).
Proof.
  split.
  - unfold cleanupContainerItems. cbn. rewrite !map_map.
    assert (H : ∀ items : list HTMLElement,
      map (λ x, (cleanupReactEditBar (cleanupReactEditBar x).1).1) items
        = map (λ x, (cleanupReactEditBar x).1) items /\
      concat (map (λ x, (cleanupReactEditBar (cleanupReactEditBar x).1).2) items) = []).
    { induction items as [|i items [IH1 IH2]]; [split; reflexivity|].
      cbn. rewrite IH1, IH2. unfold cleanupReactEditBar.
      destruct (editBarCleanup i) eqn:E; cbn; rewrite ?E; split; reflexivity. }
    destruct (H (children c)) as [-> ->]. reflexivity.
  - eexists. split; [reflexivity|]. split; reflexivity.
Qed.

End Lifecycle.

Section ReactToolbar.
Context `{ext : Externals}.
Variable options : option EditBarOptions.
Variable dom : Dom.
Variable Component : EditBarContext -> string.
Hypothesis Hrender : options ≫= opt_render = Some (createReactEditBar Component).

Lemma react_selection_change (st : State) (next : list Element) :
  let st' := handleSelectionChanged options dom st next in
  (next ≠ [] -> accepts options next = true ->
     isVisible st' = true /\
     attachedContent st' =
       [mkItem "div" (Some (mkRoot (Component (buildContext next))))] /\
     effects st' =
       effects st ++ map eUnmount (pendingRoots (attachedContent st))
         ++ [eSetItems (attachedContent st'); ePlace; eShow]) /\
  (next = [] ∨ accepts options next = false ->
     isVisible st' = false /\ attachedContent st' = attachedContent st).
Proof using Hrender.
  cbn zeta. unfold handleSelectionChanged, accepts. rewrite Hrender.
  destruct (options ≫= opt_filter) as [f|]; [destruct (f next)|]; cbn [negb];
    rewrite ?length_eqb_0; (split; [intros Hne Hacc|intros Hor]);
    try discriminate;
    try (apply hideIfPresent_hidden);
    try (destruct Hor as [Hor|Hor]; [|discriminate];
         rewrite bool_decide_eq_true_2 by exact Hor; apply hideIfPresent_hidden);
    rewrite bool_decide_eq_false_2 by exact Hne; cbn [createReactEditBar];
    (split; [apply renderItems_content|]);
    (split; [apply renderItems_content|]);
    rewrite renderItems_effects, getOrCreateEditBar_children;
    destruct (renderItems_content dom st (getOrCreateEditBar st) next
      [mkItem "div" (Some (mkRoot (Component (buildContext next))))]) as [-> _];
    reflexivity.
Qed.

Lemma react_roots_bounded (events : list Event) (st : State) :
  length (pendingRoots (attachedContent st)) <= 1 ->
  length (pendingRoots (attachedContent (run options dom st events))) <= 1.
Proof using Hrender.
  intros H.
  apply (run_keeps options dom
           (λ s, length (pendingRoots (attachedContent s)) <= 1)); [|exact H].
  clear H. intros ev l s Hs.
  destruct (callListener_cases options dom l ev s) as [-> | ->]; [exact Hs|].
  destruct ev as [next|target|]; cbn.
  - destruct (react_selection_change s next) as [Hshow Hhide].
    destruct next as [|e next]; [destruct Hhide as [_ ->]; auto|].
    destruct (accepts options (e :: next)) eqn:Hacc.
    + destruct Hshow as (_ & -> & _); [discriminate|reflexivity|]. cbn. lia.
    + destruct Hhide as [_ ->]; auto.
  - destruct (reposition_fields dom s (handleGeometryChanged dom s target))
      as (_ & _ & -> & _); [left; eauto|exact Hs].
  - destruct (reposition_fields dom s (handleHistoryChanged dom s))
      as (_ & _ & -> & _); [now right|exact Hs].
Qed.

(** X14. With a React toolbar ([render: createReactEditBar(...)]), a
    selection change for a non-empty, accepted selection unmounts the
    root mounted for the previous selection, then attaches one element
    with a root rendering the component for the new selection, and shows
    the toolbar; no event adds a second root, so the toolbar never holds
    more than one live React root. *)
Theorem react_single_live_root (st : State) :
  (∀ next, next ≠ [] -> accepts options next = true ->
     let st' := handleSelectionChanged options dom st next in
     isVisible st' = true /\
     attachedContent st' =
       [mkItem "div" (Some (mkRoot (Component (buildContext next))))] /\
     effects st' =
       effects st ++ map eUnmount (pendingRoots (attachedContent st))
         ++ [eSetItems (attachedContent st'); ePlace; eShow]) /\
  (∀ events,
     length (pendingRoots (attachedContent st)) <= 1 ->
     length (pendingRoots (attachedContent (run options dom st events))) <= 1).
Proof using Hrender.
  split.
  - intros next Hne Hacc. apply react_selection_change; assumption.
  - intros events. apply react_roots_bounded.
Qed.

End ReactToolbar.

(** The run of the filtered toolbar that ends visible: the plugin holds
    the selection [[3]]. *)
Lemma visible_selection_nonempty_witness :
  selection
    (run Fixture.fx_options_filter Fixture.fx_dom (init initial)
       [SelectionChange [1]; SelectionChange [3]; HistoryChange]) ≠ [].
Proof.
  apply visible_selection_nonempty.
  - intros H. discriminate H.
  - reflexivity.
Defined.

Lemma reposition_events_keep_content_witness :
  let st :=
    run Fixture.fx_options_items Fixture.fx_dom (init initial)
      [SelectionChange [1]] in
  attachedContent (emit Fixture.fx_options_items Fixture.fx_dom st HistoryChange)
  = attachedContent st.
Proof.
  intros st.
  destruct (reposition_events_keep_content (ext := Fixture.fixture) Fixture.fx_options_items
              Fixture.fx_dom st HistoryChange) as (_ & H & _).
  - intros next. discriminate.
  - exact H.
Defined.

Lemma container_persists_witness :
  ∃ c',
    container
      (run Fixture.fx_options_items Fixture.fx_dom
         (mkState (Some newContainer) [] ownSubscriptions [])
         [SelectionChange [1]; SelectionChange []; HistoryChange]) = Some c' /\
    attached c' = true.
Proof.
  apply container_persists with (c := newContainer). reflexivity.
Defined.

Lemma selection_tracks_last_witness :
  selection
    (run Fixture.fx_options_filter Fixture.fx_dom (init initial)
       [SelectionChange [1]; GeometryChange 1; SelectionChange [3]; HistoryChange])
  = [3].
Proof.
  rewrite selection_tracks_last; [reflexivity|].
  vm_compute. left.
Defined.

(** An emitter that already carries a listener of somebody else. *)
Lemma init_destroy_round_trip_witness :
  listeners
    (destroy (init (mkState (ext := Fixture.fixture) None []
                      [(ev_history_change, foreignListener 7)] [])))
  = [(ev_history_change, foreignListener 7)].
Proof.
  apply (init_destroy_round_trip
           (mkState (ext := Fixture.fixture) None []
              [(ev_history_change, foreignListener 7)] [])).
  intros sub Hsub. cbn in Hsub. apply list_elem_of_singleton in Hsub as ->.
  unfold ownSubscriptions. rewrite !not_elem_of_cons.
  repeat split; try discriminate. apply not_elem_of_nil.
Defined.

Lemma react_single_live_root_witness :
  length
    (pendingRoots
       (attachedContent
          (run Fixture.fx_options_react Fixture.fx_dom (init initial)
             [SelectionChange [1]; SelectionChange [1; 2]; HistoryChange]))) <= 1.
Proof.
  destruct (react_single_live_root (ext := Fixture.fixture) Fixture.fx_options_react Fixture.fx_dom
              (λ _, "CustomToolbar") eq_refl (init initial)) as [_ H].
  apply H. cbn. lia.
Defined.

End EditBarFacts.

Module InfographicFacts.
Import Infographic InfographicLifecycle InfographicTheory.

Section RuntimeFacts.
Context `{imp : Imports}.

(** What a [performRender] that gets through leaves behind. *)
Lemma performRender_success (st : InfographicState) (template : Node) :
  isCompleteParsedInfographicOptions (parsedOptions st) = true ->
  compose (parsedOptions st) = Some template ->
  let n := renderer_render (parsedOptions st) template in
  performRender st =
  Returned
    (mkInfographic true (Some n)
       (if editable (options st) then Some (newEditor n (parsedOptions st)) else None)
       (initialOptions st) (options st) (parsedOptions st)
       (subscriptions st ++ (if editable (options st) then bridgeSubscriptions else []))
       (replaceChildren (parsed_container (parsedOptions st)) n (hostChildren st))
       (outputs st
        ++ match editor st with Some ed => [EditorDestroyed ed] | None => [] end
        ++ [Emitted (rendered_event n (options st))])).
Proof.
  intros Hc Ht. cbn zeta. unfold performRender. rewrite Hc, Ht. cbn.
  destruct (editable (options st)); cbn; unfold output; cbn;
    rewrite ?app_nil_r, <- ?app_assoc; reflexivity.
Qed.

(** X15. A render with complete options whose template parses sets
    [rendered], replaces the children of the host element by the new
    node alone (other hosts are untouched), destroys the previous editor
    if there was one, creates an editor exactly when the options are
    editable, and ends by emitting ['rendered'] with the node. *)
Theorem render_success (st : InfographicState) (template : Node) :
  isCompleteParsedInfographicOptions (parsedOptions st) = true ->
  compose (parsedOptions st) = Some template ->
  let n := renderer_render (parsedOptions st) template in
  ∃ st',
    performRender st = Returned st' /\
    rendered st' = true /\ node st' = Some n /\
    (∀ c, parsed_container (parsedOptions st) = Some c ->
       hostChildren st' !! c = Some [n] /\
       ∀ c', c' ≠ c -> hostChildren st' !! c' = hostChildren st !! c') /\
    (parsed_container (parsedOptions st) = None ->
       hostChildren st' = hostChildren st) /\
    (editor st' =
       if editable (options st) then Some (newEditor n (parsedOptions st)) else None) /\
    outputs st' =
      outputs st
      ++ match editor st with Some ed => [EditorDestroyed ed] | None => [] end
      ++ [Emitted (rendered_event n (options st))].
Proof.
  intros Hc Ht. cbn zeta. eexists. split; [apply (performRender_success st template Hc Ht)|].
  cbn. repeat split.
  - unfold replaceChildren. rewrite H. apply lookup_insert_eq.
  - intros c' Hne. unfold replaceChildren. rewrite H. now apply lookup_insert_ne.
  - intros H. unfold replaceChildren. now rewrite H.
Qed.

(** X16. When the template cannot be parsed, [render] and [update] throw
    ['Failed to parse SVG template'] before anything is rendered: the
    [rendered] flag, the node, the editor, the host children and the
    bridge are as before the call, and nothing is emitted beyond what
    [setOptions] emitted. *)
Theorem render_template_failure (st : InfographicState) :
  (∀ input,
     let st1 :=
       match truthyInput input with
       | Some i => setOptions st i mode_replace
       | None => st
       end in
     isCompleteParsedInfographicOptions (parsedOptions st1) = true ->
     compose (parsedOptions st1) = None ->
     render st input = Threw "Failed to parse SVG template" st1 /\
     rendered st1 = rendered st /\ node st1 = node st /\
     editor st1 = editor st /\ hostChildren st1 = hostChildren st /\
     subscriptions st1 = subscriptions st) /\
  (∀ input,
     let st1 := setOptions st input mode_merge in
     isCompleteParsedInfographicOptions (parsedOptions st1) = true ->
     compose (parsedOptions st1) = None ->
     update st input = Threw "Failed to parse SVG template" st1 /\
     rendered st1 = rendered st /\ node st1 = node st /\
     editor st1 = editor st /\ hostChildren st1 = hostChildren st /\
     subscriptions st1 = subscriptions st).
Proof.
  split; intros input st1 Hc Ht.
  - split; [unfold render, performRender; fold st1; now rewrite Hc, Ht|].
    subst st1. destruct (truthyInput input) as [i|]; [|tauto].
    destruct (setOptions_keeps st i mode_replace) as (? & ? & ? & ? & ? & _). tauto.
  - split; [unfold update, performRender; fold st1; now rewrite Hc, Ht|].
    subst st1.
    destruct (setOptions_keeps st input mode_merge) as (? & ? & ? & ? & ? & _). tauto.
Qed.

(** [performRender] never changes the options. *)
Lemma performRender_options (st : InfographicState) :
  let st' := stateOf (performRender st) in
  options st' = options st /\ parsedOptions st' = parsedOptions st /\
  initialOptions st' = initialOptions st.
Proof.
  cbn zeta. unfold performRender.
  destruct (isCompleteParsedInfographicOptions (parsedOptions st)); cbn; [|auto].
  destruct (compose (parsedOptions st)); cbn; [|auto].
  destruct (editable (options st)); cbn; auto.
Qed.

Lemma setOptions_replace_options (st1 st2 : InfographicState) (i : OptionsInput) :
  initialOptions st1 = initialOptions st2 ->
  options (setOptions st1 i mode_replace) = options (setOptions st2 i mode_replace) /\
  parsedOptions (setOptions st1 i mode_replace)
    = parsedOptions (setOptions st2 i mode_replace).
Proof.
  intros H. unfold setOptions.
  destruct (parseSyntaxOptions i) as [[parsed errors] warnings]. rewrite H.
  destruct (length warnings =? 0)%nat, (length errors =? 0)%nat; cbn; auto.
Qed.

(** X17. [render(options)] starts again from the options the instance
    was constructed with: what earlier [update]s merged in is forgotten.
    Rendering some options after any update gives the same options, and
    the same parsed options, as rendering them right away. *)
Theorem render_forgets_updates (st : InfographicState)
    (u i : OptionsInput) :
  truthyInput (Some i) = Some i ->
  let direct := stateOf (render st (Some i)) in
  let afterUpdate := stateOf (render (stateOf (update st u)) (Some i)) in
  options afterUpdate = options direct /\
  parsedOptions afterUpdate = parsedOptions direct /\
  initialOptions afterUpdate = initialOptions st.
Proof.
  intros Ht. cbn zeta. unfold render, update. rewrite Ht.
  set (s1 := setOptions st u mode_merge).
  set (s2 := stateOf (performRender s1)).
  assert (Hinit : initialOptions s2 = initialOptions st).
  { destruct (performRender_options s1) as (_ & _ & H). unfold s2. rewrite H.
    apply setOptions_keeps. }
  destruct (performRender_options (setOptions s2 i mode_replace)) as (-> & -> & ->).
  destruct (performRender_options (setOptions st i mode_replace)) as (-> & -> & _).
  destruct (setOptions_replace_options s2 st i Hinit) as [-> ->].
  split; [reflexivity|]. split; [reflexivity|].
  destruct (setOptions_keeps s2 i mode_replace) as (_ & _ & _ & _ & _ & ->).
  exact Hinit.
Qed.

(** X18. Every render of editable options subscribes the bridge once
    more and nothing ever unsubscribes it: after such a render on an
    instance that already carries [k] bridges, each [history:change]
    emission adds [k + 1] ['historyChange'] events to the outputs. *)
Theorem bridge_accumulates (st : InfographicState) (k : nat) (template : Node)
    (action : Action) :
  subscriptions st = bridgedTimes k ->
  isCompleteParsedInfographicOptions (parsedOptions st) = true ->
  compose (parsedOptions st) = Some template ->
  editable (options st) = true ->
  ∃ st' ed,
    performRender st = Returned st' /\
    subscriptions st' = bridgedTimes (S k) /\
    editor st' = Some ed /\
    let publicEvent :=
      historyChange
        (mkHistoryEvent action (canUndo ed) (canRedo ed) (getHistorySize ed)) in
    let once :=
      Emitted publicEvent
      :: callIfProvided (onHistoryChange (options st')) publicEvent in
    outputs (emitter_emit st' (history_change action)) =
    outputs st' ++ once ++ mjoin (replicate k once).
Proof.
  intros Hs Hc Ht He.
  pose proof (performRender_success st template Hc Ht) as Hr. cbn zeta in Hr.
  rewrite He, Hs, bridgedTimes_S in Hr.
  eexists. eexists. split; [exact Hr|]. split; [reflexivity|]. split; [reflexivity|].
  cbn zeta. rewrite (emit_bridged_outputs (S k)) by reflexivity. reflexivity.
Qed.

(** X19. A render of options that are not editable drops the editor but
    keeps the bridges of earlier renders subscribed: a later
    [history:change] still adds a ['historyChange'] event to the outputs
    for each of them, with [canUndo] and [canRedo] false and a history
    size of 0. *)
Theorem bridge_outlives_editor (st : InfographicState) (k : nat) (template : Node)
    (action : Action) :
  subscriptions st = bridgedTimes (S k) ->
  isCompleteParsedInfographicOptions (parsedOptions st) = true ->
  compose (parsedOptions st) = Some template ->
  editable (options st) = false ->
  ∃ st',
    performRender st = Returned st' /\
    editor st' = None /\
    subscriptions st' = bridgedTimes (S k) /\
    let publicEvent := historyChange (mkHistoryEvent action false false 0) in
    let once :=
      Emitted publicEvent
      :: callIfProvided (onHistoryChange (options st')) publicEvent in
    outputs (emitter_emit st' (history_change action)) =
    outputs st' ++ once ++ mjoin (replicate k once).
Proof.
  intros Hs Hc Ht He.
  pose proof (performRender_success st template Hc Ht) as Hr. cbn zeta in Hr.
  rewrite He, Hs, app_nil_r in Hr.
  eexists. split; [exact Hr|]. split; [reflexivity|]. split; [reflexivity|].
  cbn zeta. rewrite (emit_bridged_outputs (S k)) by reflexivity. reflexivity.
Qed.

Section DestroyFacts.
Context `{node_eq : EqDecision Node}.

Lemma removeNode_gone (n : Node) (dom : gmap nat (list Node)) (c : nat)
    (ch : list Node) :
  removeNode n dom !! c = Some ch ->
  (n ∉ ch) /\
  ∃ before, dom !! c = Some before /\ ∀ m, m ≠ n -> (m ∈ ch <-> m ∈ before).
Proof.
  unfold removeNode. rewrite lookup_fmap.
  destruct (dom !! c) as [before|]; cbn; [|discriminate].
  intros [= <-]. split.
  - rewrite list_elem_of_In, filter_In, negb_true_iff, bool_decide_eq_false. tauto.
  - exists before. split; [reflexivity|]. intros m Hm.
    rewrite !list_elem_of_In, filter_In, negb_true_iff, bool_decide_eq_false. tauto.
Qed.

(** X20. [destroy] resets the instance: [rendered] is false, the node is
    forgotten and no longer a child of any host, ['destroyed'] is
    announced, and since all listeners are removed no internal event is
    published afterwards. *)
Theorem destroy_resets (st : InfographicState) :
  let d := destroyInfographic st in
  rendered (final d) = false /\ node (final d) = None /\
  announced d = [destroyed] /\
  (∀ n c ch, node st = Some n -> hostChildren (final d) !! c = Some ch -> n ∉ ch) /\
  (∀ ev, emitter_emit (final d) ev = final d).
Proof.
  cbn zeta. unfold destroyInfographic. cbn. repeat split.
  intros n c ch Hn. rewrite Hn. intros H. now apply removeNode_gone in H.
Qed.

(** X21. [destroy] destroys the editor but keeps the reference: a render
    after [destroy] destroys the same editor a second time before it
    creates anything. *)
Theorem destroy_then_render_destroys_twice (st : InfographicState)
    (ed : IEditor) (template : Node) :
  editor st = Some ed ->
  isCompleteParsedInfographicOptions (parsedOptions st) = true ->
  compose (parsedOptions st) = Some template ->
  ∃ st',
    performRender (final (destroyInfographic st)) = Returned st' /\
    outputs st' =
      outputs st ++ [EditorDestroyed ed] ++ [EditorDestroyed ed]
      ++ [Emitted (rendered_event (renderer_render (parsedOptions st) template)
                     (options st))].
Proof.
  intros He Hc Ht.
  pose proof (performRender_success (final (destroyInfographic st)) template Hc Ht) as Hr.
  cbn zeta in Hr. eexists. split; [exact Hr|].
  cbn. rewrite He. cbn. now rewrite <- !app_assoc.
Qed.

End DestroyFacts.

Section ExportFacts.
Variable ExportOptions : Type.
Variable Exported : Type.
Variable isSvgExport : ExportOptions -> bool.
Variable exportToSVGString : Node -> option ExportOptions -> Exported.
Variable exportToPNGString : Node -> option ExportOptions -> Exported.

(** X22. [toDataURL] throws ['Infographic is not rendered yet.'] exactly
    when the instance holds no node, as after construction.  A render
    that stops on incomplete options does not touch the node, so
    [toDataURL] answers as before it: it keeps throwing if nothing was
    rendered, and keeps exporting the node of the earlier render
    otherwise.  After a render that got through it exports the new node,
    as SVG when asked to and as PNG otherwise (also without export
    options). *)
Theorem toDataURL_needs_render (input : OptionsInput)
    (exportOptions : option ExportOptions) :
  let export := toDataURL ExportOptions Exported isSvgExport
                  exportToSVGString exportToPNGString in
  (∀ st, export st exportOptions = inl "Infographic is not rendered yet."
         <-> node st = None) /\
  export (construct input) exportOptions = inl "Infographic is not rendered yet." /\
  (∀ st,
     isCompleteParsedInfographicOptions (parsedOptions st) = false ->
     export (stateOf (performRender st)) exportOptions = export st exportOptions) /\
  (∀ st template,
     isCompleteParsedInfographicOptions (parsedOptions st) = true ->
     compose (parsedOptions st) = Some template ->
     let n := renderer_render (parsedOptions st) template in
     export (stateOf (performRender st)) exportOptions =
     inr (match exportOptions with
          | Some o => if isSvgExport o then exportToSVGString n exportOptions
                      else exportToPNGString n exportOptions
          | None => exportToPNGString n exportOptions
          end)).
Proof.
  cbn zeta. split; [|split; [|split]].
  - intros st. unfold toDataURL. destruct (node st) as [n|].
    + destruct (default false (isSvgExport <$> exportOptions));
        split; discriminate.
    + split; reflexivity.
  - unfold construct, toDataURL.
    destruct (parseSyntaxOptions input) as [[parsed errors] warnings].
    destruct (length warnings =? 0)%nat, (length errors =? 0)%nat; reflexivity.
  - intros st Hc. rewrite (performRender_incomplete st Hc). reflexivity.
  - intros st template Hc Ht.
    rewrite (performRender_success st template Hc Ht). unfold toDataURL. cbn.
    destruct exportOptions as [o|]; cbn; [destruct (isSvgExport o)|]; reflexivity.
Qed.

End ExportFacts.

End RuntimeFacts.

Lemma render_success_witness :
  ∃ st',
    performRender RuntimeFixtureMore.fx_fresh = Returned st' /\
    rendered st' = true /\ node st' = Some "list" /\
    hostChildren st' !! 0 = Some ["list"] /\
    editor st' = Some (mkEditor false false 0).
Proof.
  destruct (render_success RuntimeFixtureMore.fx_fresh "list" eq_refl eq_refl)
    as (st' & Hr & H1 & H2 & H3 & _ & H5 & _).
  exists st'. split; [exact Hr|]. split; [exact H1|]. split; [exact H2|].
  split; [apply (H3 0 eq_refl)|exact H5].
Defined.

Lemma render_template_failure_witness :
  render (imp := RuntimeFixtureMore.fx_imports_unparsable)
    RuntimeFixtureMore.fx_unparsable None
  = Threw "Failed to parse SVG template" RuntimeFixtureMore.fx_unparsable.
Proof.
  destruct (render_template_failure (imp := RuntimeFixtureMore.fx_imports_unparsable)
              RuntimeFixtureMore.fx_unparsable) as [Hrender _].
  destruct (Hrender None eq_refl eq_refl) as [H _]. exact H.
Defined.

Lemma render_forgets_updates_witness :
  options
    (stateOf (render
       (stateOf (update RuntimeFixtureMore.fx_fresh (Syntax "bars")))
       (Some (Syntax "pie"))))
  = options (stateOf (render RuntimeFixtureMore.fx_fresh (Some (Syntax "pie")))).
Proof.
  destruct (render_forgets_updates RuntimeFixtureMore.fx_fresh
              (Syntax "bars") (Syntax "pie") eq_refl) as [H _].
  exact H.
Defined.

Lemma bridge_accumulates_witness :
  ∃ st' ed,
    performRender RuntimeFixture.fx_editing = Returned st' /\
    subscriptions st' = bridgedTimes 2 /\
    editor st' = Some ed /\
    outputs (emitter_emit st' (history_change undo)) =
    outputs st'
    ++ (Emitted (historyChange
          (mkHistoryEvent undo (canUndo ed) (canRedo ed) (getHistorySize ed)))
        :: callIfProvided (onHistoryChange (options st'))
             (historyChange
                (mkHistoryEvent undo (canUndo ed) (canRedo ed) (getHistorySize ed))))
    ++ mjoin (replicate 1
         (Emitted (historyChange
            (mkHistoryEvent undo (canUndo ed) (canRedo ed) (getHistorySize ed)))
          :: callIfProvided (onHistoryChange (options st'))
               (historyChange
                  (mkHistoryEvent undo (canUndo ed) (canRedo ed)
                     (getHistorySize ed))))).
Proof.
  exact (bridge_accumulates RuntimeFixture.fx_editing 1 "list" undo
           eq_refl eq_refl eq_refl eq_refl).
Defined.

Lemma bridge_outlives_editor_witness :
  ∃ st',
    performRender RuntimeFixtureMore.fx_readonly = Returned st' /\
    editor st' = None /\
    subscriptions st' = bridgedTimes 1 /\
    outputs (emitter_emit st' (history_change undo)) =
    outputs st'
    ++ (Emitted (historyChange (mkHistoryEvent undo false false 0))
        :: callIfProvided (onHistoryChange (options st'))
             (historyChange (mkHistoryEvent undo false false 0)))
    ++ mjoin (replicate 0
         (Emitted (historyChange (mkHistoryEvent undo false false 0))
          :: callIfProvided (onHistoryChange (options st'))
               (historyChange (mkHistoryEvent undo false false 0)))).
Proof.
  exact (bridge_outlives_editor RuntimeFixtureMore.fx_readonly 0 "list" undo
           eq_refl eq_refl eq_refl eq_refl).
Defined.

(** Destroying the read-only instance detaches its node from host 0. *)
Lemma destroy_resets_witness :
  ∃ ch,
    hostChildren
      (final (destroyInfographic (imp := RuntimeFixture.fx_imports) (node_eq := String.eq_dec : EqDecision (Node (Imports := RuntimeFixture.fx_imports)))
                RuntimeFixtureMore.fx_readonly)) !! 0 = Some ch /\
    "list" ∉ ch.
Proof.
  destruct (destroy_resets (imp := RuntimeFixture.fx_imports) (node_eq := String.eq_dec : EqDecision (Node (Imports := RuntimeFixture.fx_imports))) RuntimeFixtureMore.fx_readonly)
    as (_ & _ & _ & Hgone & _).
  exists []. split; [reflexivity|].
  exact (Hgone "list" 0 [] eq_refl eq_refl).
Defined.

Lemma destroy_then_render_destroys_twice_witness :
  ∃ st',
    performRender
      (final (destroyInfographic (imp := RuntimeFixture.fx_imports) (node_eq := String.eq_dec : EqDecision (Node (Imports := RuntimeFixture.fx_imports)))
                RuntimeFixtureMore.fx_readonly)) = Returned st' /\
    outputs st' =
      [EditorDestroyed (mkEditor true false 1);
       EditorDestroyed (mkEditor true false 1);
       Emitted (rendered_event "list"
                  (RuntimeFixture.mkFx (Some "list") false (Some "cb")))].
Proof.
  exact (destroy_then_render_destroys_twice (imp := RuntimeFixture.fx_imports) (node_eq := String.eq_dec : EqDecision (Node (Imports := RuntimeFixture.fx_imports)))
           RuntimeFixtureMore.fx_readonly (mkEditor true false 1) "list"
           eq_refl eq_refl eq_refl).
Defined.

(** Exports before and after the first render of the fresh instance, and
    after a render of the instance without template. *)
Lemma toDataURL_needs_render_witness :
  toDataURL (imp := RuntimeFixture.fx_imports) bool string (λ svg, svg)
    (λ (n : string) _, "svg:" +:+ n) (λ (n : string) _, "png:" +:+ n)
    RuntimeFixtureMore.fx_fresh (Some true)
    = inl "Infographic is not rendered yet." /\
  toDataURL (imp := RuntimeFixture.fx_imports) bool string (λ svg, svg)
    (λ (n : string) _, "svg:" +:+ n) (λ (n : string) _, "png:" +:+ n)
    (stateOf (performRender RuntimeFixtureMore.fx_fresh)) (Some true)
    = inr "svg:list" /\
  toDataURL (imp := RuntimeFixture.fx_imports) bool string (λ svg, svg)
    (λ (n : string) _, "svg:" +:+ n) (λ (n : string) _, "png:" +:+ n)
    (stateOf (performRender RuntimeFixture.fx_incomplete)) (Some true)
    = toDataURL (imp := RuntimeFixture.fx_imports) bool string (λ svg, svg)
        (λ (n : string) _, "svg:" +:+ n) (λ (n : string) _, "png:" +:+ n)
        RuntimeFixture.fx_incomplete (Some true).
Proof.
  destruct (toDataURL_needs_render (imp := RuntimeFixture.fx_imports) bool string
              (λ svg, svg) (λ (n : string) _, "svg:" +:+ n)
              (λ (n : string) _, "png:" +:+ n)
              RuntimeFixtureMore.fx_fresh_input (Some true))
    as (_ & H1 & H2 & H3).
  split; [exact H1|]. split.
  - exact (H3 RuntimeFixtureMore.fx_fresh "list" eq_refl eq_refl).
  - exact (H2 RuntimeFixture.fx_incomplete eq_refl).
Defined.

End InfographicFacts.
